(** * Heston Monte Carlo pricer and finite-difference Greeks

    A shallow embedding of [src/simulation.py] ([heston_model_sim] and
    [calculate_greeks]) and the properties of the engine's specification
    that are settled on it, followed by further properties of the pricer and
    of the code around it: the payoff chart of [run_simulation] (app.py) and
    [fetch_risk_free_rate] (data_loader.py).

    Numbers.  The program computes with IEEE doubles.  Here a finite double
    is idealised as the real number it approximates (no rounding, no
    overflow), and [NaN] stands for the value numpy produces, with a
    RuntimeWarning and without raising, where the real result is undefined:
    the square root of a negative number, the mean of an empty array, a
    division by zero.  Every operation propagates [NaN], as numpy's do.
    Rounding, and the infinities and zeros that [np.exp] and the arithmetic
    produce out of range, are outside this idealisation: the properties
    below say which operations the program applies to which values, and
    where it raises; they are stated for every [np.mean], and only
    comparisons and the overflow checks of Python's own [**] and [/] are
    taken at the thresholds of the doubles, on the unrounded operand.

    Randomness.  The program draws from numpy's process-wide generator.  The
    generator's state is the sequence of standard-normal draws it hands out
    and the number of draws handed out so far; a call to [np.random.normal]
    reads the next draws and moves the position past them. *)

From Stdlib Require Import Reals Lra Lia ZArith List String Bool.
Import ListNotations.

Open Scope R_scope.

(** ** Values *)

Inductive float : Type :=
| Real (x : R)
| NaN.

Definition lift1 (f : R -> R) (a : float) : float :=
  match a with
  | Real x => Real (f x)
  | NaN => NaN
  end.

Definition lift2 (f : R -> R -> R) (a b : float) : float :=
  match a, b with
  | Real x, Real y => Real (f x y)
  | _, _ => NaN
  end.

Definition fadd : float -> float -> float := lift2 Rplus.
Definition fsub : float -> float -> float := lift2 Rminus.
Definition fmul : float -> float -> float := lift2 Rmult.

(** [np.maximum]: the larger operand, [nan] when either is [nan]. *)
Definition fmaximum : float -> float -> float := lift2 Rmax.

(** [np.exp]. *)
Definition fexp : float -> float := lift1 exp.

(** [np.sqrt]: [nan] on a negative operand. *)
Definition fsqrt (a : float) : float :=
  match a with
  | Real x => if Rlt_dec x 0 then NaN else Real (sqrt x)
  | NaN => NaN
  end.

(** Division of numpy doubles: a zero divisor gives a non-finite quotient
    ([nan] for [0/0], an infinity otherwise) and a warning, never an
    exception.  The program divides by a possibly-zero number only to
    produce a value it returns ([np.mean] of no paths, delta, gamma), so the
    one value [NaN] stands for every non-finite quotient. *)
Definition fdiv (a b : float) : float :=
  match a, b with
  | Real x, Real y => if Req_dec_T y 0 then NaN else Real (x / y)
  | _, _ => NaN
  end.

(** ** Arrays

    A one-dimensional array is a list.  The two-dimensional arrays [Z1],
    [Z2], [S] and [v] of shape (paths, times) are only ever read and written
    through whole time slices ([S[:, t]], [S[:, -1]]), so each is kept as
    the list of its time slices; slice [t] lists the entries of all paths at
    time index [t].  The arrays the source calls [S] and [v] are [Sa] and
    [va] here. *)

Definition vec : Type := list float.
Definition matrix : Type := list vec.

(** Elementwise operations with numpy's broadcasting of a scalar operand. *)
Definition vmap (f : float -> float) (a : vec) : vec := map f a.
Definition vzip (f : float -> float -> float) (a b : vec) : vec :=
  map (fun ab => f (fst ab) (snd ab)) (combine a b).
Definition sv (f : float -> float -> float) (s : float) (a : vec) : vec :=
  map (fun x => f s x) a.
Definition vs (f : float -> float -> float) (a : vec) (s : float) : vec :=
  map (fun x => f x s) a.

(** [M[:, t]]. *)
Definition slice (M : matrix) (t : nat) : vec := nth t M [].

(** [M[:, t] = c].  The loop only writes indices within the array. *)
Fixpoint set_slice (M : matrix) (t : nat) (c : vec) : matrix :=
  match M, t with
  | [], _ => []
  | _ :: M', O => c :: M'
  | c0 :: M', S t' => c0 :: set_slice M' t' c
  end.

(** [M[i, t]]. *)
Definition elem (M : matrix) (i t : nat) : float := nth i (slice M t) NaN.

(** [np.zeros((p, n))]. *)
Definition zeros (p n : Z) : matrix :=
  repeat (repeat (Real 0) (Z.to_nat p)) (Z.to_nat n).

(** The exact mean: the sum over the number of entries, [nan] for no
    entries.  It is [np.mean] without its rounding, and what [np.mean]
    returns for an array of at most one entry. *)
Definition fsum (a : vec) : float := fold_right fadd (Real 0) a.
Definition mean (a : vec) : float :=
  fdiv (fsum a) (Real (INR (List.length a))).

(** ** Exceptions, generator state and the monad of the program *)

Inductive exn : Type :=
| ZeroDivisionError
| ValueError
| OverflowError
| MemoryError.

Inductive result (A : Type) : Type :=
| Returned (a : A)
| Raised (e : exn).
Arguments Returned {A} a.
Arguments Raised {A} e.

(** The generator: its sequence of draws and its position in it. *)
Record rng : Type := { stream : Z -> R; pos : Z }.

(** Draw number [k] from now on. *)
Definition draw (g : rng) (k : Z) : R := stream g (pos g + k)%Z.

Definition advance (k : Z) (g : rng) : rng :=
  {| stream := stream g; pos := (pos g + k)%Z |}.

Definition M (A : Type) : Type := rng -> result A * rng.

Definition ret {A} (a : A) : M A := fun g => (Returned a, g).
Definition raise {A} (e : exn) : M A := fun g => (Raised e, g).
Definition bind {A B} (c : M A) (k : A -> M B) : M B :=
  fun g =>
    match c g with
    | (Returned a, g') => k a g'
    | (Raised e, g') => (Raised e, g')
    end.

Notation "x <- c ;; k" := (bind c (fun x => k))
  (at level 61, c at next level, right associativity).

(** [range(n)] as integers. *)
Definition range (n : Z) : list Z := map Z.of_nat (seq 0 (Z.to_nat n)).

(** The values of [np.random.normal(size=(p, n))]: the array is filled in
    row-major order, so entry [(i, t)] is draw number [i * n + t]. *)
Definition normal_draws (p n : Z) (g : rng) : matrix :=
  map (fun t => map (fun i => Real (draw g (i * n + t)%Z)) (range p))
      (range n).

(** ** What is taken from numpy

    Whether numpy builds an array of a given shape depends on the machine,
    and [np.mean] rounds in a way of its own; both are parameters of the
    model.  [alloc_error np p n] is the exception numpy raises when it is
    asked for an array of shape [(p, n)] whose dimensions are not negative,
    or do not fit a C long (ValueError for a shape beyond its index range,
    MemoryError when the process cannot hold the array), and [None] when it
    builds the array; a shape it builds once it builds every time, the
    temporaries of the same shape included.  [np_mean np] is [np.mean] on a
    one-dimensional array. *)
Record numpy : Type := {
  alloc_error : Z -> Z -> option exn;
  np_mean : vec -> float
}.

(** The dimensions a C long holds. *)
Definition c_long (k : Z) : bool := ((- 2 ^ 63 <=? k) && (k <? 2 ^ 63))%Z.

(** The exception, if any, of building an array of shape [(p, n)]: numpy
    rejects a negative dimension with a ValueError. *)
Definition build_error (np : numpy) (p n : Z) : option exn :=
  if c_long p && c_long n && ((p <? 0) || (n <? 0))%Z
  then Some ValueError
  else alloc_error np p n.

(** [np.random.normal(size=(p, n))]: when the array is built, [p * n] draws
    are consumed; an exception is raised before any draw. *)
Definition normal (np : numpy) (p n : Z) : M matrix :=
  fun g =>
    match build_error np p n with
    | Some e => (Raised e, g)
    | None => (Returned (normal_draws p n g), advance (p * n) g)
    end.

(** [np.zeros((p, n))]. *)
Definition np_zeros (np : numpy) (p n : Z) : M matrix :=
  fun g =>
    match build_error np p n with
    | Some e => (Raised e, g)
    | None => (Returned (zeros p n), g)
    end.

(** ** Python's own arithmetic

    A real number rounds to an infinity when its magnitude reaches
    [2^1024 - 2^970], half an ulp above the largest double.  Python raises
    OverflowError where [x ** 2] on a float, or the conversion of an int to
    a float, would do so. *)
Definition double_bound : R := IZR (2 ^ 1024 - 2 ^ 970).

Definition overflows (y : R) : bool :=
  if Rle_dec double_bound (Rabs y) then true else false.

(** [a / b] for a float [a] and an int [b]: [b] is converted to a float,
    then a zero divisor raises ZeroDivisionError. *)
Definition py_div (a : R) (b : Z) : M R :=
  if overflows (IZR b) then raise OverflowError
  else if (b =? 0)%Z then raise ZeroDivisionError
  else ret (a / IZR b).

(** [x ** 2] on a float. *)
Definition py_square (x : R) : M R :=
  if overflows (x ^ 2) then raise OverflowError else ret (x ^ 2).

(** ** [heston_model_sim] *)

Definition default_num_paths : Z := 10000.
Definition default_num_steps : Z := 100.

(** Line 30: [Z2 = rho * Z1 + np.sqrt(1 - rho**2) * np.random.normal(...)]. *)
Definition correlate (rho : R) (Z1 Zr : matrix) : matrix :=
  map (fun cs => vzip fadd (sv fmul (Real rho) (fst cs))
                           (sv fmul (fsqrt (Real (1 - rho ^ 2))) (snd cs)))
      (combine Z1 Zr).

(** Lines 42-46: the body of the time loop. *)
Definition euler_step (r kappa theta sigma dt : R) (Z1 Z2 : matrix)
    (Sv : matrix * matrix) (t : nat) : matrix * matrix :=
  let (Sa, va) := Sv in
  let vt := vs fmaximum (slice va t) (Real 0) in
  let sqrt_vt := vmap fsqrt vt in
  let Sa := set_slice Sa (t + 1)
    (vzip fmul (slice Sa t)
       (vmap fexp
          (vzip fadd
             (vs fmul (sv fsub (Real r) (sv fmul (Real 0.5) vt)) (Real dt))
             (vzip fmul (vs fmul sqrt_vt (fsqrt (Real dt))) (slice Z1 t))))) in
  let va := set_slice va (t + 1)
    (vzip fadd
       (vzip fadd (slice va t)
          (vs fmul (sv fmul (Real kappa) (sv fsub (Real theta) vt)) (Real dt)))
       (vzip fmul (vs fmul (sv fmul (Real sigma) sqrt_vt) (fsqrt (Real dt)))
          (slice Z2 t))) in
  (Sa, va).

(** Lines 32-51: the arrays [S] and [v] after the time loop. *)
Definition simulate (S0 v0 r kappa theta sigma dt : R) (Z1 Z2 : matrix)
    (num_paths num_steps : Z) : matrix * matrix :=
  let Sa := zeros num_paths (num_steps + 1) in
  let va := zeros num_paths (num_steps + 1) in
  let Sa := set_slice Sa 0 (repeat (Real S0) (Z.to_nat num_paths)) in
  let va := set_slice va 0 (repeat (Real v0) (Z.to_nat num_paths)) in
  fold_left (euler_step r kappa theta sigma dt Z1 Z2)
            (seq 0 (Z.to_nat num_steps)) (Sa, va).

(** Lines 55-58. *)
Definition payoff (option_type : string) (strike : R) (ST : vec) : vec :=
  if String.eqb option_type "call"
  then vs fmaximum (vs fsub ST (Real strike)) (Real 0)
  else vs fmaximum (sv fsub (Real strike) ST) (Real 0).

(** In line 30 [rho * Z1] is evaluated first, then [rho**2], which can
    raise, then the second batch of draws.  [simulate] builds the arrays [S]
    and [v] of lines 32-33 itself; whether numpy can build them is asked
    before. *)
Definition heston_model_sim (np : numpy)
    (S0 v0 rho kappa theta sigma T r strike : R)
    (option_type : string) (num_paths num_steps : Z) : M float :=
  dt <- py_div T num_steps ;;
  Z1 <- normal np num_paths num_steps ;;
  _ <- py_square rho ;;
  Zr <- normal np num_paths num_steps ;;
  let Z2 := correlate rho Z1 Zr in
  _ <- np_zeros np num_paths (num_steps + 1) ;;
  _ <- np_zeros np num_paths (num_steps + 1) ;;
  let (Sa, va) :=
    simulate S0 v0 r kappa theta sigma dt Z1 Z2 num_paths num_steps in
  let ST := last Sa [] in
  let option_price :=
    fmul (Real (exp (- r * T))) (np_mean np (payoff option_type strike ST)) in
  ret option_price.

(** ** [calculate_greeks] *)

(** The returned dict, in insertion order. *)
Definition dict : Type := list (string * float).

(** The double [1/365.0]: it is compared with [T], so it is taken at its
    exact value, [3158689053717389 / 2^60], a little above 1/365. *)
Definition one_day : R := 3158689053717389 / 2 ^ 60.

Definition calculate_greeks (np : numpy)
    (S0 v0 rho kappa theta sigma T r strike : R)
    (option_type : string) : M dict :=
  let dS := S0 * 0.01 in
  let dT := one_day in
  let N := 20000%Z in
  P <- heston_model_sim np S0 v0 rho kappa theta sigma T r strike
         option_type N default_num_steps ;;
  P_up <- heston_model_sim np (S0 + dS) v0 rho kappa theta sigma T r strike
            option_type N default_num_steps ;;
  P_down <- heston_model_sim np (S0 - dS) v0 rho kappa theta sigma T r strike
              option_type N default_num_steps ;;
  let delta := fdiv (fsub P_up P_down) (Real (2 * dS)) in
  dS2 <- py_square dS ;;
  let gamma :=
    fdiv (fadd (fsub P_up (fmul (Real 2) P)) P_down) (Real dS2) in
  theta_val <-
    (if Rlt_dec dT T
     then
       P_time_decay <- heston_model_sim np S0 v0 rho kappa theta sigma
                         (T - dT) r strike option_type N default_num_steps ;;
       ret (fdiv (fsub P_time_decay P) (Real dT))
     else ret (Real 0)) ;;
  ret [("price", P); ("delta", delta); ("gamma", gamma);
       ("theta", theta_val)]%string.

(** ** The discretisation step of the specification

    Section 4.2: with [v_plus v = max(v, 0)],
    [S(t+dt) = S(t) * exp((r - 0.5 * v_plus) * dt + sqrt(v_plus) * sqrt(dt) * Z1)]
    and
    [v(t+dt) = v(t) + kappa * (theta - v_plus) * dt
               + sigma * sqrt(v_plus) * sqrt(dt) * Z2],
    one path at a time. *)

Definition v_plus (v : float) : float := fmaximum v (Real 0).

Definition S_next (r dt : R) (s v z1 : float) : float :=
  fmul s
    (fexp (fadd (fmul (fsub (Real r) (fmul (Real 0.5) (v_plus v))) (Real dt))
                (fmul (fmul (fsqrt (v_plus v)) (fsqrt (Real dt))) z1))).

Definition v_next (kappa theta sigma dt : R) (v z2 : float) : float :=
  fadd (fadd v (fmul (fmul (Real kappa) (fsub (Real theta) (v_plus v)))
                     (Real dt)))
       (fmul (fmul (fmul (Real sigma) (fsqrt (v_plus v))) (fsqrt (Real dt)))
             z2).

(** The state [(S, v)] of one path after [t] steps, driven by the draws
    [z1 k], [z2 k] of its steps. *)
Fixpoint path_state (r kappa theta sigma dt : R) (z1 z2 : nat -> float)
    (S0 v0 : float) (t : nat) : float * float :=
  match t with
  | O => (S0, v0)
  | S t' =>
      let (s, v) := path_state r kappa theta sigma dt z1 z2 S0 v0 t' in
      (S_next r dt s v (z1 t'), v_next kappa theta sigma dt v (z2 t'))
  end.

(** The payoff of one terminal price. *)
Definition payoff1 (option_type : string) (strike : R) (sT : float) : float :=
  if String.eqb option_type "call"
  then fmaximum (fsub sT (Real strike)) (Real 0)
  else fmaximum (fsub (Real strike) sT) (Real 0).

(** The time slices the loop computes, one after the other. *)
Definition next_S (r dt : R) (cS cv cz : vec) : vec :=
  let vt := vs fmaximum cv (Real 0) in
  let sqrt_vt := vmap fsqrt vt in
  vzip fmul cS
    (vmap fexp
       (vzip fadd
          (vs fmul (sv fsub (Real r) (sv fmul (Real 0.5) vt)) (Real dt))
          (vzip fmul (vs fmul sqrt_vt (fsqrt (Real dt))) cz))).

Definition next_v (kappa theta sigma dt : R) (cv cz : vec) : vec :=
  let vt := vs fmaximum cv (Real 0) in
  let sqrt_vt := vmap fsqrt vt in
  vzip fadd
    (vzip fadd cv
       (vs fmul (sv fmul (Real kappa) (sv fsub (Real theta) vt)) (Real dt)))
    (vzip fmul (vs fmul (sv fmul (Real sigma) sqrt_vt) (fsqrt (Real dt))) cz).

Fixpoint slices (r kappa theta sigma dt : R) (Z1 Z2 : matrix) (c0S c0v : vec)
    (t : nat) : vec * vec :=
  match t with
  | O => (c0S, c0v)
  | S t' =>
      let (cS, cv) := slices r kappa theta sigma dt Z1 Z2 c0S c0v t' in
      (next_S r dt cS cv (slice Z1 t'),
       next_v kappa theta sigma dt cv (slice Z2 t'))
  end.

(** The draws that drive path [i] of a call that finds the generator in
    state [g]: entry [(i, t)] of [Z1] and of [Z2].  The second call to
    [np.random.normal] reads the [num_paths * num_steps] draws after those
    of the first. *)
Definition z1_of (g : rng) (num_steps : Z) (i t : nat) : float :=
  Real (draw g (Z.of_nat i * num_steps + Z.of_nat t)%Z).

Definition z2_of (rho : R) (g : rng) (num_paths num_steps : Z) (i t : nat)
    : float :=
  fadd (fmul (Real rho) (z1_of g num_steps i t))
       (fmul (fsqrt (Real (1 - rho ^ 2)))
             (z1_of (advance (num_paths * num_steps) g) num_steps i t)).

(** The terminal price of path [i]. *)
Definition terminal_price (S0 v0 rho kappa theta sigma T r : R)
    (num_paths num_steps : Z) (g : rng) (i : nat) : float :=
  fst (path_state r kappa theta sigma (T / IZR num_steps)
         (z1_of g num_steps i) (z2_of rho g num_paths num_steps i)
         (Real S0) (Real v0) (Z.to_nat num_steps)).

(** The generator after one call of [heston_model_sim]. *)
Definition after_sim (num_paths num_steps : Z) (g : rng) : rng :=
  advance (num_paths * num_steps) (advance (num_paths * num_steps) g).

(** The price of a call that runs to its end. *)
Definition mc_price (np : numpy) (S0 v0 rho kappa theta sigma T r strike : R)
    (option_type : string) (num_paths num_steps : Z) (g : rng) : float :=
  fmul (Real (exp (- r * T)))
    (np_mean np
       (map (fun i =>
               payoff1 option_type strike
                 (terminal_price S0 v0 rho kappa theta sigma T r
                    num_paths num_steps g i))
            (seq 0 (Z.to_nat num_paths)))).

(** The condition under which a call runs to its end: sizes numpy builds
    (the draws, and the arrays [S] and [v]), a step count Python converts to
    a float, and a [rho ** 2] within the doubles. *)
Definition simulation_runs (np : numpy) (rho : R) (num_paths num_steps : Z)
    : Prop :=
  (0 <= num_paths)%Z /\ (1 <= num_steps)%Z /\
  overflows (IZR num_steps) = false /\
  alloc_error np num_paths num_steps = None /\
  alloc_error np num_paths (num_steps + 1) = None /\
  overflows (rho ^ 2) = false.

(** A numpy for the examples: it builds every array of at most [2^32]
    entries, and its mean is the exact one; the examples evaluate it on
    arrays of at most one entry, where [np.mean] is exact too. *)
Definition small_numpy : numpy :=
  {| alloc_error := fun p n =>
       if (p * n <=? 2 ^ 32)%Z then None else Some MemoryError;
     np_mean := mean |}.

(** Magnitudes at which no product or sum of two parameters leaves the
    doubles. *)
Definition ordinary (x : R) : Prop := Rabs x <= 10 ^ 150.

Definition ordinary_parameters (S0 v0 kappa theta sigma r strike : R) : Prop :=
  Forall ordinary [S0; v0; kappa; theta; sigma; r; strike].

(** [d[k]] on the returned dict. *)
Fixpoint dict_get (k : string) (d : dict) : option float :=
  match d with
  | [] => None
  | (k', x) :: d' => if String.eqb k k' then Some x else dict_get k d'
  end.


(** A value that is a real number. *)
Definition is_real (a : float) : Prop := exists x, a = Real x.

(** A generator whose every draw is [0]. *)
Definition zero_rng : rng := {| stream := fun _ => 0; pos := 0 |}.

(** A generator whose second draw is [-1] and whose other draws are [0]. *)
Definition dip_rng : rng :=
  {| stream := fun k => if (k =? 1)%Z then -1 else 0; pos := 0 |}.

(** The generator after [k] calls of [heston_model_sim] of the same size. *)
Fixpoint after_sims (k : nat) (num_paths num_steps : Z) (g : rng) : rng :=
  match k with
  | O => g
  | S k' => after_sim num_paths num_steps (after_sims k' num_paths num_steps g)
  end.

(** The payoff of a real terminal price. *)
Definition payoff_real (option_type : string) (strike sT : R) : R :=
  if String.eqb option_type "call"
  then Rmax (sT - strike) 0
  else Rmax (strike - sT) 0.

(** ** The payoff chart of [run_simulation] (app.py, lines 140-146) *)

(** [int(x)] on a float: truncation towards zero. *)
Definition py_int (x : R) : Z :=
  if Rle_dec 0 x then Int_part x else (- Int_part (- x))%Z.

(** [list(range(start, stop, step))]: a zero step raises ValueError. *)
Definition range3 (start stop step : Z) : result (list Z) :=
  if (step =? 0)%Z then Raised ValueError
  else
    let len :=
      if (0 <? step)%Z
      then (if (start <? stop)%Z then (stop - start - 1) / step + 1 else 0)%Z
      else (if (stop <? start)%Z then (start - stop - 1) / (- step) + 1
            else 0)%Z in
    Returned (map (fun k => (start + k * step)%Z) (range len)).

(** The spots and the payoffs the chart plots. *)
Definition payoff_chart (current_price strike : R) (option_type : string)
    : result (list Z * list R) :=
  match range3 (py_int (current_price * 0.8)) (py_int (current_price * 1.2))
          (py_int (current_price * 0.01)) with
  | Raised e => Raised e
  | Returned spots =>
      Returned
        (spots,
         map (fun s =>
                if String.eqb option_type "call"
                then Rmax (IZR s - strike) 0
                else Rmax (strike - IZR s) 0)
             spots)
  end.

(** ** [fetch_risk_free_rate] (data_loader.py)

    The response of the yield feed is [None] when the request, its status
    check or its decoding fails, and otherwise the list under the key
    "data" (the empty list when the key is absent).  A pool is the record of
    the five fields the function reads; an [apy] that is null is [None]. *)

Record pool : Type := {
  symbol : string;
  chain : string;
  project : string;
  tvlUsd : R;
  apy : option R
}.

Definition is_usdc_pool (p : pool) : bool :=
  String.eqb (symbol p) "USDC" && String.eqb (chain p) "Ethereum"
  && String.eqb (project p) "aave-v3".

(** [max(pools, key=lambda x: x["tvlUsd"])] on a non-empty list: the first
    pool is kept until a later one has a strictly larger key. *)
Fixpoint max_by_tvl (best : pool) (l : list pool) : pool :=
  match l with
  | [] => best
  | p :: l' =>
      max_by_tvl (if Rlt_dec (tvlUsd best) (tvlUsd p) then p else best) l'
  end.

Definition fetch_risk_free_rate (response : option (list pool)) : R :=
  match response with
  | None => 0.04
  | Some pools =>
      match filter is_usdc_pool pools with
      | [] => 0.04
      | p :: usdc_pools =>
          match apy (max_by_tvl p usdc_pools) with
          | Some a => a / 100
          | None => 0.04
          end
      end
  end.

(** * Lemmas *)

(** ** Elementwise operations *)

Section Elementwise.

Lemma length_vmap f a : List.length (vmap f a) = List.length a.
Proof. apply length_map. Qed.

Lemma length_sv f s a : List.length (sv f s a) = List.length a.
Proof. apply length_map. Qed.

Lemma length_vs f a s : List.length (vs f a s) = List.length a.
Proof. apply length_map. Qed.

Lemma length_vzip f a b :
  List.length a = List.length b -> List.length (vzip f a b) = List.length a.
Proof.
  intros H. unfold vzip. rewrite length_map, length_combine. lia.
Qed.

Lemma nth_map_lt {A B} (f : A -> B) (l : list A) (i : nat) (d : A) (e : B) :
  (i < List.length l)%nat -> nth i (map f l) e = f (nth i l d).
Proof.
  intros H. rewrite (nth_indep (map f l) e (f d)).
  - apply map_nth.
  - rewrite length_map. exact H.
Qed.

Lemma nth_vmap f a i :
  (i < List.length a)%nat -> nth i (vmap f a) NaN = f (nth i a NaN).
Proof. intros H. unfold vmap. now apply nth_map_lt. Qed.

Lemma nth_sv f s a i :
  (i < List.length a)%nat -> nth i (sv f s a) NaN = f s (nth i a NaN).
Proof. intros H. unfold sv. now rewrite (nth_map_lt _ _ _ NaN). Qed.

Lemma nth_vs f a s i :
  (i < List.length a)%nat -> nth i (vs f a s) NaN = f (nth i a NaN) s.
Proof. intros H. unfold vs. now rewrite (nth_map_lt _ _ _ NaN). Qed.

Lemma nth_vzip f a b i :
  List.length a = List.length b -> (i < List.length a)%nat ->
  nth i (vzip f a b) NaN = f (nth i a NaN) (nth i b NaN).
Proof.
  intros Hl Hi. unfold vzip.
  rewrite (nth_map_lt _ _ _ (NaN, NaN)).
  - now rewrite combine_nth.
  - rewrite length_combine. lia.
Qed.

End Elementwise.

Ltac vlen :=
  repeat first
    [ rewrite length_vmap | rewrite length_sv | rewrite length_vs
    | rewrite length_vzip ];
  try congruence; try lia.

Lemma length_next_S r dt cS cv cz :
  List.length cv = List.length cS -> List.length cz = List.length cS ->
  List.length (next_S r dt cS cv cz) = List.length cS.
Proof. intros H1 H2. unfold next_S. vlen; vlen. Qed.

Lemma length_next_v kappa theta sigma dt cv cz :
  List.length cz = List.length cv ->
  List.length (next_v kappa theta sigma dt cv cz) = List.length cv.
Proof. intros H. unfold next_v. vlen; vlen. Qed.

Ltac vnth :=
  repeat first
    [ rewrite nth_vzip by (vlen; vlen)
    | rewrite nth_vmap by (vlen; vlen)
    | rewrite nth_sv by (vlen; vlen)
    | rewrite nth_vs by (vlen; vlen) ].

Lemma nth_next_S r dt cS cv cz i :
  List.length cv = List.length cS -> List.length cz = List.length cS ->
  (i < List.length cS)%nat ->
  nth i (next_S r dt cS cv cz) NaN
  = S_next r dt (nth i cS NaN) (nth i cv NaN) (nth i cz NaN).
Proof.
  intros H1 H2 Hi. unfold next_S, S_next, v_plus. vnth. reflexivity.
Qed.

Lemma nth_next_v kappa theta sigma dt cv cz i :
  List.length cz = List.length cv -> (i < List.length cv)%nat ->
  nth i (next_v kappa theta sigma dt cv cz) NaN
  = v_next kappa theta sigma dt (nth i cv NaN) (nth i cz NaN).
Proof.
  intros H Hi. unfold next_v, v_next, v_plus. vnth. reflexivity.
Qed.

(** ** Writing and reading time slices *)

Lemma length_set_slice M t c : List.length (set_slice M t c) = List.length M.
Proof.
  revert t. induction M as [|c0 M IH]; intros [|t]; simpl; auto.
Qed.

Lemma slice_set_slice_eq M t c :
  (t < List.length M)%nat -> slice (set_slice M t c) t = c.
Proof.
  unfold slice. revert t.
  induction M as [|c0 M IH]; intros [|t]; simpl; intros H; try lia; auto.
  apply IH. lia.
Qed.

Lemma slice_set_slice_neq M t j c :
  t <> j -> slice (set_slice M t c) j = slice M j.
Proof.
  unfold slice. revert t j.
  induction M as [|c0 M IH]; intros [|t] [|j]; simpl; intros H;
    try congruence; auto.
Qed.

Lemma slice_last (M : matrix) n :
  List.length M = S n -> last M [] = slice M n.
Proof.
  unfold slice. revert n.
  induction M as [|c0 M IH]; intros n H; simpl in H; try lia.
  destruct M as [|c1 M].
  - simpl in H. assert (n = 0)%nat by lia. subst. reflexivity.
  - destruct n as [|n]; simpl in H; try lia.
    change (last (c1 :: M) [] = nth n (c1 :: M) []).
    apply IH. simpl. lia.
Qed.

(** ** The time loop computes the slices one after the other *)

Section Loop.

Variables (r kappa theta sigma dt : R) (Z1 Z2 : matrix).

Lemma euler_step_eq Sa va t :
  euler_step r kappa theta sigma dt Z1 Z2 (Sa, va) t
  = (set_slice Sa (t + 1) (next_S r dt (slice Sa t) (slice va t) (slice Z1 t)),
     set_slice va (t + 1)
       (next_v kappa theta sigma dt (slice va t) (slice Z2 t))).
Proof. reflexivity. Qed.

Lemma loop_slices (Sa va : matrix) (k : nat) :
  (k < List.length Sa)%nat -> (k < List.length va)%nat ->
  let Sv :=
    fold_left (euler_step r kappa theta sigma dt Z1 Z2) (seq 0 k) (Sa, va) in
  List.length (fst Sv) = List.length Sa /\
  List.length (snd Sv) = List.length va /\
  (forall j, (k < j)%nat ->
     slice (fst Sv) j = slice Sa j /\ slice (snd Sv) j = slice va j) /\
  (forall t, (t <= k)%nat ->
     (slice (fst Sv) t, slice (snd Sv) t)
     = slices r kappa theta sigma dt Z1 Z2 (slice Sa 0) (slice va 0) t).
Proof.
  induction k as [|k IH]; intros HS Hv.
  - simpl. repeat split; auto.
    intros t Ht. assert (t = 0)%nat by lia. subst. reflexivity.
  - rewrite seq_S, fold_left_app. simpl.
    destruct IH as (L1 & L2 & Hgt & Hle); try lia.
    destruct (fold_left (euler_step r kappa theta sigma dt Z1 Z2)
                (seq 0 k) (Sa, va)) as [Sk vk] eqn:E.
    simpl in L1, L2, Hgt, Hle.
    rewrite euler_step_eq. simpl.
    rewrite !length_set_slice.
    repeat split; auto.
    + rewrite slice_set_slice_neq by lia. apply Hgt. lia.
    + rewrite slice_set_slice_neq by lia. apply Hgt. lia.
    + intros t Ht.
      destruct (Nat.eq_dec t (S k)) as [->|Hne].
      * replace (k + 1)%nat with (S k) by lia.
        rewrite !slice_set_slice_eq by lia.
        simpl. rewrite <- (Hle k) by lia. reflexivity.
      * rewrite !slice_set_slice_neq by lia. apply Hle. lia.
Qed.

End Loop.

(** ** The arrays of [simulate], slice by slice and path by path *)

Lemma length_zeros p n : List.length (zeros p n) = Z.to_nat n.
Proof. unfold zeros. apply repeat_length. Qed.

Lemma simulate_slices S0 v0 r kappa theta sigma dt Z1 Z2 num_paths num_steps t :
  (0 <= num_steps)%Z -> (t <= Z.to_nat num_steps)%nat ->
  let Sv := simulate S0 v0 r kappa theta sigma dt Z1 Z2 num_paths num_steps in
  (slice (fst Sv) t, slice (snd Sv) t)
  = slices r kappa theta sigma dt Z1 Z2
      (repeat (Real S0) (Z.to_nat num_paths))
      (repeat (Real v0) (Z.to_nat num_paths)) t.
Proof.
  intros Hn Ht. unfold simulate.
  set (Sa := set_slice _ 0 (repeat (Real S0) _)).
  set (va := set_slice _ 0 (repeat (Real v0) _)).
  assert (LS : List.length Sa = S (Z.to_nat num_steps)).
  { unfold Sa. rewrite length_set_slice, length_zeros. lia. }
  assert (Lv : List.length va = S (Z.to_nat num_steps)).
  { unfold va. rewrite length_set_slice, length_zeros. lia. }
  destruct (loop_slices r kappa theta sigma dt Z1 Z2 Sa va (Z.to_nat num_steps))
    as (_ & _ & _ & H); try lia.
  cbv zeta. rewrite (H t Ht).
  unfold Sa, va.
  rewrite !slice_set_slice_eq by (rewrite length_zeros; lia).
  reflexivity.
Qed.

Lemma simulate_length S0 v0 r kappa theta sigma dt Z1 Z2 num_paths num_steps :
  (0 <= num_steps)%Z ->
  List.length
    (fst (simulate S0 v0 r kappa theta sigma dt Z1 Z2 num_paths num_steps))
  = S (Z.to_nat num_steps).
Proof.
  intros Hn. unfold simulate.
  set (Sa := set_slice _ 0 (repeat (Real S0) _)).
  set (va := set_slice _ 0 (repeat (Real v0) _)).
  assert (LS : List.length Sa = S (Z.to_nat num_steps)).
  { unfold Sa. rewrite length_set_slice, length_zeros. lia. }
  assert (Lv : List.length va = S (Z.to_nat num_steps)).
  { unfold va. rewrite length_set_slice, length_zeros. lia. }
  destruct (loop_slices r kappa theta sigma dt Z1 Z2 Sa va (Z.to_nat num_steps))
    as (H & _); lia.
Qed.

Lemma path_state_ext r kappa theta sigma dt z1 z2 z1' z2' s0 v0 t :
  (forall k, (k < t)%nat -> z1 k = z1' k /\ z2 k = z2' k) ->
  path_state r kappa theta sigma dt z1 z2 s0 v0 t
  = path_state r kappa theta sigma dt z1' z2' s0 v0 t.
Proof.
  induction t as [|t IH]; intros H; simpl; auto.
  rewrite IH by (intros k Hk; apply H; lia).
  destruct (H t) as [-> ->]; auto.
Qed.

(** Slices of equal length [p] are the path states of the [p] paths. *)
Lemma slices_paths r kappa theta sigma dt Z1 Z2 (p n : nat) s0 v0 t :
  (forall k, (k < n)%nat ->
     List.length (slice Z1 k) = p /\ List.length (slice Z2 k) = p) ->
  (t <= n)%nat ->
  let cc := slices r kappa theta sigma dt Z1 Z2
              (repeat (Real s0) p) (repeat (Real v0) p) t in
  List.length (fst cc) = p /\ List.length (snd cc) = p /\
  forall i, (i < p)%nat ->
    (nth i (fst cc) NaN, nth i (snd cc) NaN)
    = path_state r kappa theta sigma dt
        (fun k => elem Z1 i k) (fun k => elem Z2 i k) (Real s0) (Real v0) t.
Proof.
  intros HZ. induction t as [|t IH]; intros Ht; simpl.
  - rewrite !repeat_length. repeat split; auto.
    intros i Hi. now rewrite !nth_repeat_lt.
  - destruct IH as (L1 & L2 & IH); try lia.
    destruct (slices r kappa theta sigma dt Z1 Z2 _ _ t) as [cS cv] eqn:E.
    simpl in *. destruct (HZ t) as [HZ1 HZ2]; try lia.
    rewrite length_next_S, length_next_v by congruence.
    repeat split; auto.
    intros i Hi. specialize (IH i Hi).
    rewrite nth_next_S, nth_next_v by congruence.
    rewrite <- IH. reflexivity.
Qed.

(** ** The draws *)

Lemma length_range n : List.length (range n) = Z.to_nat n.
Proof. unfold range. now rewrite length_map, length_seq. Qed.

Lemma nth_range n i d :
  (i < Z.to_nat n)%nat -> nth i (range n) d = Z.of_nat i.
Proof.
  intros H. unfold range.
  rewrite (nth_map_lt _ _ _ 0%nat) by (rewrite length_seq; lia).
  now rewrite seq_nth.
Qed.

Lemma length_normal_draws p n g : List.length (normal_draws p n g) = Z.to_nat n.
Proof. unfold normal_draws. now rewrite length_map, length_range. Qed.

Lemma slice_normal_draws p n g t :
  (t < Z.to_nat n)%nat ->
  slice (normal_draws p n g) t
  = map (fun i => Real (draw g (i * n + Z.of_nat t)%Z)) (range p).
Proof.
  intros H. unfold slice, normal_draws.
  rewrite (nth_map_lt _ _ _ 0%Z) by (rewrite length_range; lia).
  now rewrite nth_range.
Qed.

Lemma elem_normal_draws p n g i t :
  (t < Z.to_nat n)%nat -> (i < Z.to_nat p)%nat ->
  elem (normal_draws p n g) i t = z1_of g n i t.
Proof.
  intros Ht Hi. unfold elem. rewrite slice_normal_draws by exact Ht.
  rewrite (nth_map_lt _ _ _ 0%Z) by (rewrite length_range; lia).
  now rewrite nth_range.
Qed.

Lemma length_slice_normal_draws p n g t :
  (t < Z.to_nat n)%nat ->
  List.length (slice (normal_draws p n g) t) = Z.to_nat p.
Proof.
  intros H. rewrite slice_normal_draws by exact H.
  now rewrite length_map, length_range.
Qed.

Lemma slice_correlate rho Z1 Zr t :
  List.length Z1 = List.length Zr -> (t < List.length Z1)%nat ->
  slice (correlate rho Z1 Zr) t
  = vzip fadd (sv fmul (Real rho) (slice Z1 t))
              (sv fmul (fsqrt (Real (1 - rho ^ 2))) (slice Zr t)).
Proof.
  intros HL Ht. unfold slice, correlate.
  rewrite (nth_map_lt _ _ _ ([] : vec, [] : vec))
    by (rewrite length_combine; lia).
  now rewrite combine_nth.
Qed.

Lemma draws_shape rho p n g k :
  (k < Z.to_nat n)%nat ->
  List.length (slice (normal_draws p n g) k) = Z.to_nat p /\
  List.length
    (slice (correlate rho (normal_draws p n g)
              (normal_draws p n (advance (p * n) g))) k) = Z.to_nat p.
Proof.
  intros H. split.
  - now apply length_slice_normal_draws.
  - rewrite slice_correlate by (rewrite !length_normal_draws; lia).
    rewrite length_vzip; rewrite !length_sv;
      now rewrite !length_slice_normal_draws.
Qed.

Lemma elem_correlate rho p n g i t :
  (t < Z.to_nat n)%nat -> (i < Z.to_nat p)%nat ->
  elem (correlate rho (normal_draws p n g)
          (normal_draws p n (advance (p * n) g))) i t
  = z2_of rho g p n i t.
Proof.
  intros Ht Hi. unfold elem, z2_of.
  rewrite slice_correlate by (rewrite !length_normal_draws; lia).
  rewrite nth_vzip;
    rewrite ?length_sv, ?length_slice_normal_draws; try lia.
  rewrite !nth_sv by (rewrite length_slice_normal_draws; lia).
  change (nth i (slice ?M t) NaN) with (elem M i t).
  now rewrite !elem_normal_draws.
Qed.

(** ** The paths of a call *)

Lemma simulate_paths S0 v0 rho kappa theta sigma dt r num_paths num_steps g t :
  (0 <= num_steps)%Z -> (t <= Z.to_nat num_steps)%nat ->
  let Z1 := normal_draws num_paths num_steps g in
  let Z2 := correlate rho Z1
              (normal_draws num_paths num_steps
                 (advance (num_paths * num_steps) g)) in
  let Sv := simulate S0 v0 r kappa theta sigma dt Z1 Z2 num_paths num_steps in
  List.length (slice (fst Sv) t) = Z.to_nat num_paths /\
  List.length (slice (snd Sv) t) = Z.to_nat num_paths /\
  forall i, (i < Z.to_nat num_paths)%nat ->
    (elem (fst Sv) i t, elem (snd Sv) i t)
    = path_state r kappa theta sigma dt
        (z1_of g num_steps i) (z2_of rho g num_paths num_steps i)
        (Real S0) (Real v0) t.
Proof.
  intros Hn Ht Z1 Z2 Sv.
  pose proof (simulate_slices S0 v0 r kappa theta sigma dt Z1 Z2
                num_paths num_steps t Hn Ht) as E.
  cbv zeta in E. fold Sv in E.
  destruct (slices_paths r kappa theta sigma dt Z1 Z2
              (Z.to_nat num_paths) (Z.to_nat num_steps) S0 v0 t)
    as (L1 & L2 & P); auto.
  { intros k Hk. now apply draws_shape. }
  rewrite <- E in L1, L2, P. simpl in L1, L2, P.
  repeat split; auto.
  intros i Hi. unfold elem. rewrite (P i Hi).
  apply path_state_ext. intros k Hk. split.
  - apply elem_normal_draws; lia.
  - apply elem_correlate; lia.
Qed.

Lemma terminal_slice S0 v0 rho kappa theta sigma T r num_paths num_steps g :
  (0 <= num_steps)%Z ->
  let Z1 := normal_draws num_paths num_steps g in
  let Z2 := correlate rho Z1
              (normal_draws num_paths num_steps
                 (advance (num_paths * num_steps) g)) in
  last (fst (simulate S0 v0 r kappa theta sigma (T / IZR num_steps) Z1 Z2
               num_paths num_steps)) []
  = map (terminal_price S0 v0 rho kappa theta sigma T r num_paths num_steps g)
        (seq 0 (Z.to_nat num_paths)).
Proof.
  intros Hn Z1 Z2.
  rewrite (slice_last _ (Z.to_nat num_steps)) by now apply simulate_length.
  destruct (simulate_paths S0 v0 rho kappa theta sigma (T / IZR num_steps) r
              num_paths num_steps g (Z.to_nat num_steps) Hn (le_n _))
    as (L1 & _ & P).
  fold Z1 Z2 in L1, P.
  apply (nth_ext _ _ NaN NaN).
  - now rewrite L1, length_map, length_seq.
  - intros i Hi. rewrite L1 in Hi.
    rewrite (nth_map_lt _ _ _ 0%nat) by (rewrite length_seq; lia).
    rewrite seq_nth by lia. simpl.
    unfold terminal_price. rewrite <- (P i Hi). reflexivity.
Qed.

Lemma payoff_map option_type strike ST :
  payoff option_type strike ST = map (payoff1 option_type strike) ST.
Proof.
  unfold payoff, payoff1, vs, sv.
  destruct (String.eqb option_type "call"); rewrite ?map_map; reflexivity.
Qed.

(** ** Python's overflow checks and numpy's shape checks *)

Lemma overflows_false (x : R) (b : Z) :
  Rabs x <= IZR b -> (b <? 2 ^ 1024 - 2 ^ 970)%Z = true ->
  overflows x = false.
Proof.
  intros Hx Hb. apply Z.ltb_lt in Hb. apply IZR_lt in Hb.
  unfold overflows, double_bound.
  destruct (Rle_dec _ (Rabs x)); [lra|reflexivity].
Qed.

Lemma overflows_true (x : R) :
  double_bound <= Rabs x -> overflows x = true.
Proof.
  intros H. unfold overflows.
  destruct (Rle_dec double_bound (Rabs x)); [reflexivity|contradiction].
Qed.

Lemma overflows_c_long (k : Z) : c_long k = true -> overflows (IZR k) = false.
Proof.
  unfold c_long. intros H. apply andb_prop in H. destruct H as [H1 H2].
  apply Z.leb_le in H1. apply Z.ltb_lt in H2.
  apply (overflows_false _ (2 ^ 63)); [|reflexivity].
  rewrite <- abs_IZR. apply IZR_le. lia.
Qed.

Lemma overflows_zero : overflows (0 ^ 2) = false.
Proof.
  apply (overflows_false _ 0); [|reflexivity].
  replace (0 ^ 2) with 0 by ring. rewrite Rabs_R0. lra.
Qed.

Lemma build_error_nonneg np p n :
  (0 <= p)%Z -> (0 <= n)%Z -> build_error np p n = alloc_error np p n.
Proof.
  intros Hp Hn. unfold build_error.
  destruct (Z.ltb_spec p 0); [lia|]. destruct (Z.ltb_spec n 0); [lia|].
  now rewrite andb_false_r.
Qed.

Lemma build_error_negative np p n :
  c_long p = true -> c_long n = true -> (p < 0 \/ n < 0)%Z ->
  build_error np p n = Some ValueError.
Proof.
  intros Hp Hn H. unfold build_error. rewrite Hp, Hn.
  assert (E : ((p <? 0) || (n <? 0))%Z = true).
  { apply orb_true_iff. destruct H; [left|right]; now apply Z.ltb_lt. }
  now rewrite E.
Qed.

(** ** What one call of [heston_model_sim] computes *)

Lemma heston_model_sim_returns
    np S0 v0 rho kappa theta sigma T r strike option_type num_paths num_steps
    g :
  simulation_runs np rho num_paths num_steps ->
  heston_model_sim np S0 v0 rho kappa theta sigma T r strike option_type
    num_paths num_steps g
  = (Returned (mc_price np S0 v0 rho kappa theta sigma T r strike option_type
                 num_paths num_steps g),
     after_sim num_paths num_steps g).
Proof.
  intros (Hp & Hn & On & A1 & A2 & Orho).
  unfold heston_model_sim, bind, py_div, py_square, normal, np_zeros, ret.
  rewrite On.
  destruct (Z.eqb_spec num_steps 0) as [E|_]; [lia|].
  rewrite !build_error_nonneg by lia. rewrite A1, Orho, A2.
  pose proof (terminal_slice S0 v0 rho kappa theta sigma T r
                num_paths num_steps g) as E.
  cbv zeta in E.
  destruct (simulate _ _ _ _ _ _ _ _ _ _ _) as [Sa va].
  simpl in E. rewrite E by lia.
  rewrite payoff_map, map_map. reflexivity.
Qed.

Lemma heston_model_sim_zero_steps
    np S0 v0 rho kappa theta sigma T r strike option_type num_paths g :
  heston_model_sim np S0 v0 rho kappa theta sigma T r strike option_type
    num_paths 0 g
  = (Raised ZeroDivisionError, g).
Proof.
  unfold heston_model_sim, bind, py_div.
  rewrite (overflows_c_long 0) by reflexivity. reflexivity.
Qed.

Lemma heston_model_sim_negative_size
    np S0 v0 rho kappa theta sigma T r strike option_type num_paths num_steps
    g :
  c_long num_paths = true -> c_long num_steps = true ->
  num_steps <> 0%Z -> (num_paths < 0 \/ num_steps < 0)%Z ->
  heston_model_sim np S0 v0 rho kappa theta sigma T r strike option_type
    num_paths num_steps g
  = (Raised ValueError, g).
Proof.
  intros Cp Cn Hn Hneg. unfold heston_model_sim, bind, py_div, normal, ret.
  rewrite (overflows_c_long num_steps Cn).
  destruct (Z.eqb_spec num_steps 0) as [E|_]; [contradiction|].
  now rewrite build_error_negative.
Qed.

(** [rho ** 2] overflows after the first batch of draws has been taken. *)
Lemma heston_model_sim_rho_overflows
    np S0 v0 rho kappa theta sigma T r strike option_type num_paths num_steps
    g :
  (0 <= num_paths)%Z -> (1 <= num_steps)%Z ->
  overflows (IZR num_steps) = false ->
  alloc_error np num_paths num_steps = None ->
  overflows (rho ^ 2) = true ->
  heston_model_sim np S0 v0 rho kappa theta sigma T r strike option_type
    num_paths num_steps g
  = (Raised OverflowError, advance (num_paths * num_steps) g).
Proof.
  intros Hp Hn On A1 Orho.
  unfold heston_model_sim, bind, py_div, py_square, normal, ret.
  rewrite On.
  destruct (Z.eqb_spec num_steps 0) as [E|_]; [lia|].
  rewrite !build_error_nonneg by lia. now rewrite A1, Orho.
Qed.

(** ** Real values stay real *)

Lemma fsqrt_real x : 0 <= x -> fsqrt (Real x) = Real (sqrt x).
Proof. intros H. unfold fsqrt. destruct (Rlt_dec x 0); [lra|reflexivity]. Qed.

Lemma v_plus_real x : v_plus (Real x) = Real (Rmax x 0).
Proof. reflexivity. Qed.

Lemma S_next_real r dt s x z :
  0 <= dt ->
  S_next r dt (Real s) (Real x) (Real z)
  = Real (s * exp ((r - 0.5 * Rmax x 0) * dt + sqrt (Rmax x 0) * sqrt dt * z)).
Proof.
  intros H. unfold S_next. rewrite v_plus_real.
  rewrite !fsqrt_real by (auto; apply Rmax_r). reflexivity.
Qed.

Lemma v_next_real kappa theta sigma dt x z :
  0 <= dt ->
  v_next kappa theta sigma dt (Real x) (Real z)
  = Real (x + kappa * (theta - Rmax x 0) * dt
          + sigma * sqrt (Rmax x 0) * sqrt dt * z).
Proof.
  intros H. unfold v_next. rewrite v_plus_real.
  rewrite !fsqrt_real by (auto; apply Rmax_r). reflexivity.
Qed.

(** With [dt = 0] every step leaves the state where it is. *)
Lemma path_state_dt0 r kappa theta sigma z1 z2 s0 v0 t :
  (forall k, (k < t)%nat -> is_real (z1 k) /\ is_real (z2 k)) ->
  path_state r kappa theta sigma 0 z1 z2 (Real s0) (Real v0) t
  = (Real s0, Real v0).
Proof.
  induction t as [|t IH]; intros Hz; simpl; auto.
  rewrite IH by (intros k Hk; apply Hz; lia).
  destruct (Hz t) as [[a ->] [b ->]]; [lia|].
  rewrite S_next_real, v_next_real by lra.
  rewrite sqrt_0. f_equal; f_equal.
  - replace ((r - 0.5 * Rmax v0 0) * 0 + sqrt (Rmax v0 0) * 0 * a) with 0
      by ring.
    rewrite exp_0. ring.
  - ring.
Qed.

Lemma z1_of_real g n i t : is_real (z1_of g n i t).
Proof. unfold z1_of. now eexists. Qed.

Lemma z2_of_real rho g p n i t :
  -1 <= rho <= 1 -> is_real (z2_of rho g p n i t).
Proof.
  intros H. unfold z2_of, z1_of.
  rewrite fsqrt_real by nra. simpl. now eexists.
Qed.

(** ** Means *)

Lemma mean_nil : mean [] = NaN.
Proof.
  unfold mean, fdiv. simpl. destruct (Req_dec_T 0 0); [reflexivity|lra].
Qed.

Lemma mean_single a : mean [a] = a.
Proof.
  unfold mean, fsum, fdiv. cbn [fold_right List.length INR].
  destruct a as [x|]; [|reflexivity]. unfold fadd, lift2.
  destruct (Req_dec_T 1 0) as [?|_]; [lra|]. f_equal. field.
Qed.

Lemma Rmax_left a : 0 <= a -> Rmax a 0 = a.
Proof. intros H. unfold Rmax. destruct (Rle_dec a 0); lra. Qed.

Lemma Rmax_right a : a <= 0 -> Rmax a 0 = 0.
Proof. intros H. unfold Rmax. destruct (Rle_dec a 0); lra. Qed.

(** ** The returned dict *)


Lemma dict_get_delta (a b c d : float) :
  dict_get "delta"
    [("price", a); ("delta", b); ("gamma", c); ("theta", d)]%string = Some b.
Proof. reflexivity. Qed.

Lemma dict_get_gamma (a b c d : float) :
  dict_get "gamma"
    [("price", a); ("delta", b); ("gamma", c); ("theta", d)]%string = Some c.
Proof. reflexivity. Qed.



Lemma pos_after_sims k num_paths num_steps g :
  pos (after_sims k num_paths num_steps g)
  = (pos g + Z.of_nat k * (2 * num_paths * num_steps))%Z.
Proof.
  induction k as [|k IH].
  - simpl. lia.
  - change (after_sims (S k) num_paths num_steps g)
      with (after_sim num_paths num_steps (after_sims k num_paths num_steps g)).
    unfold after_sim, advance. cbn [pos]. rewrite IH. lia.
Qed.

(** ** What one call of [calculate_greeks] computes *)

Lemma calculate_greeks_runs
    np S0 v0 rho kappa theta sigma T r strike option_type g :
  simulation_runs np rho 20000 default_num_steps ->
  overflows ((S0 * 0.01) ^ 2) = false ->
  let dS := S0 * 0.01 in
  let dT := one_day in
  let N := 20000%Z in
  let g1 := after_sim N default_num_steps g in
  let g2 := after_sim N default_num_steps g1 in
  let g3 := after_sim N default_num_steps g2 in
  let P := mc_price np S0 v0 rho kappa theta sigma T r strike option_type
             N default_num_steps g in
  let P_up := mc_price np (S0 + dS) v0 rho kappa theta sigma T r strike
                option_type N default_num_steps g1 in
  let P_down := mc_price np (S0 - dS) v0 rho kappa theta sigma T r strike
                  option_type N default_num_steps g2 in
  let delta := fdiv (fsub P_up P_down) (Real (2 * dS)) in
  let gamma :=
    fdiv (fadd (fsub P_up (fmul (Real 2) P)) P_down) (Real (dS ^ 2)) in
  calculate_greeks np S0 v0 rho kappa theta sigma T r strike option_type g
  = if Rlt_dec dT T
    then
      (Returned
         [("price", P); ("delta", delta); ("gamma", gamma);
          ("theta",
           fdiv (fsub (mc_price np S0 v0 rho kappa theta sigma (T - dT) r
                         strike option_type N default_num_steps g3) P)
                (Real dT))]%string,
       after_sim N default_num_steps g3)
    else
      (Returned
         [("price", P); ("delta", delta); ("gamma", gamma);
          ("theta", Real 0)]%string,
       g3).
Proof.
  intros Hrun HdS dS dT N g1 g2 g3 P P_up P_down delta gamma.
  unfold calculate_greeks, bind.
  rewrite heston_model_sim_returns by exact Hrun.
  rewrite heston_model_sim_returns by exact Hrun.
  rewrite heston_model_sim_returns by exact Hrun.
  unfold py_square. rewrite HdS. unfold ret at 1.
  fold dS dT N g1 g2 g3.
  destruct (Rlt_dec dT T) as [H|H].
  - rewrite heston_model_sim_returns by exact Hrun.
    reflexivity.
  - reflexivity.
Qed.

(** [dS ** 2] overflows after three simulations have run. *)
Lemma calculate_greeks_dS_overflows
    np S0 v0 rho kappa theta sigma T r strike option_type g :
  simulation_runs np rho 20000 default_num_steps ->
  overflows ((S0 * 0.01) ^ 2) = true ->
  calculate_greeks np S0 v0 rho kappa theta sigma T r strike option_type g
  = (Raised OverflowError, after_sims 3 20000 default_num_steps g).
Proof.
  intros Hrun HdS. unfold calculate_greeks, bind.
  rewrite heston_model_sim_returns by exact Hrun.
  rewrite heston_model_sim_returns by exact Hrun.
  rewrite heston_model_sim_returns by exact Hrun.
  unfold py_square. rewrite HdS. reflexivity.
Qed.

(** ** Zero maturity *)

Lemma payoff1_call strike s :
  payoff1 "call" strike (Real s) = Real (Rmax (s - strike) 0).
Proof. reflexivity. Qed.

Lemma payoff1_other option_type strike s :
  option_type <> "call"%string ->
  payoff1 option_type strike (Real s) = Real (Rmax (strike - s) 0).
Proof.
  intros H. unfold payoff1.
  destruct (String.eqb_spec option_type "call"); [contradiction|reflexivity].
Qed.

Lemma terminal_price_zero_maturity
    S0 v0 rho kappa theta sigma r num_paths num_steps g i :
  -1 <= rho <= 1 ->
  terminal_price S0 v0 rho kappa theta sigma 0 r num_paths num_steps g i
  = Real S0.
Proof.
  intros Hrho. unfold terminal_price.
  replace (0 / IZR num_steps) with 0 by (unfold Rdiv; ring).
  rewrite path_state_dt0; [reflexivity|].
  intros k _. split; [apply z1_of_real|now apply z2_of_real].
Qed.

Lemma terminal_price_zero_maturity_single_step
    S0 v0 rho kappa theta sigma r num_paths g i :
  terminal_price S0 v0 rho kappa theta sigma 0 r num_paths 1 g i = Real S0.
Proof.
  unfold terminal_price. change (Z.to_nat 1) with 1%nat.
  cbn [path_state fst]. unfold z1_of.
  replace (0 / 1) with 0 by (unfold Rdiv; ring).
  rewrite S_next_real by lra. rewrite sqrt_0. f_equal.
  match goal with
  | |- S0 * exp ?e = S0 => replace e with 0 by ring
  end.
  rewrite exp_0. ring.
Qed.

Lemma fmul_one_l a : fmul (Real 1) a = a.
Proof. destruct a as [x|]; [|reflexivity]. simpl. f_equal. ring. Qed.

Lemma map_const_seq {A} (c : A) (k start : nat) :
  map (fun _ => c) (seq start k) = repeat c k.
Proof.
  revert start. induction k as [|k IH]; intros start; simpl; [reflexivity|].
  now rewrite IH.
Qed.

Lemma mc_price_zero_maturity
    np S0 v0 rho kappa theta sigma r strike option_type num_paths num_steps
    g :
  -1 <= rho <= 1 \/ num_steps = 1%Z ->
  mc_price np S0 v0 rho kappa theta sigma 0 r strike option_type
    num_paths num_steps g
  = np_mean np (repeat (payoff1 option_type strike (Real S0))
                  (Z.to_nat num_paths)).
Proof.
  intros H. unfold mc_price.
  replace (- r * 0) with 0 by ring. rewrite exp_0, fmul_one_l. f_equal.
  rewrite <- (map_const_seq _ _ 0). apply map_ext. intros i.
  destruct H as [H| ->].
  - now rewrite terminal_price_zero_maturity.
  - now rewrite terminal_price_zero_maturity_single_step.
Qed.

(** ** The draws a call reads *)

Lemma draw_advance k g i : draw (advance k g) i = draw g (k + i)%Z.
Proof. unfold draw, advance. simpl. f_equal. lia. Qed.

(** ** A correlation outside [-1, 1] *)

Lemma fmul_nan_r a : fmul a NaN = NaN.
Proof. now destruct a. Qed.

Lemma fadd_nan_r a : fadd a NaN = NaN.
Proof. now destruct a. Qed.

Lemma z2_of_nan rho g p n i t :
  rho < -1 \/ 1 < rho -> z2_of rho g p n i t = NaN.
Proof.
  intros H. unfold z2_of, z1_of, fsqrt.
  destruct (Rlt_dec (1 - rho ^ 2) 0) as [_|N]; [|exfalso; apply N; nra].
  reflexivity.
Qed.

Lemma v_next_nan_draw kappa theta sigma dt v :
  v_next kappa theta sigma dt v NaN = NaN.
Proof. unfold v_next. now rewrite fmul_nan_r, fadd_nan_r. Qed.

Lemma S_next_nan r dt s z : S_next r dt s NaN z = NaN.
Proof. unfold S_next. simpl. apply fmul_nan_r. Qed.

(** From the second step on, the price of a path whose correlated draws are
    [nan] is [nan]. *)
Lemma path_state_nan r kappa theta sigma dt z1 z2 s0 v0 t :
  z2 0%nat = NaN ->
  snd (path_state r kappa theta sigma dt z1 z2 s0 v0 (S t)) = NaN /\
  fst (path_state r kappa theta sigma dt z1 z2 s0 v0 (S (S t))) = NaN.
Proof.
  intros H.
  assert (V : forall k,
             snd (path_state r kappa theta sigma dt z1 z2 s0 v0 (S k)) = NaN).
  { induction k as [|k IH].
    - simpl. rewrite H. apply v_next_nan_draw.
    - change (path_state r kappa theta sigma dt z1 z2 s0 v0 (S (S k)))
        with (let (s, v) :=
                path_state r kappa theta sigma dt z1 z2 s0 v0 (S k) in
              (S_next r dt s v (z1 (S k)),
               v_next kappa theta sigma dt v (z2 (S k)))).
      destruct (path_state r kappa theta sigma dt z1 z2 s0 v0 (S k))
        as [s v].
      simpl in IH. subst v. reflexivity. }
  split; [apply V|].
  change (path_state r kappa theta sigma dt z1 z2 s0 v0 (S (S t)))
    with (let (s, v) :=
            path_state r kappa theta sigma dt z1 z2 s0 v0 (S t) in
          (S_next r dt s v (z1 (S t)),
           v_next kappa theta sigma dt v (z2 (S t)))).
  specialize (V t).
  destruct (path_state r kappa theta sigma dt z1 z2 s0 v0 (S t)) as [s v].
  simpl in V. subst v. simpl. apply S_next_nan.
Qed.

Lemma payoff1_nan option_type strike : payoff1 option_type strike NaN = NaN.
Proof. unfold payoff1. now destruct (String.eqb option_type "call"). Qed.

(** ** The numpy of the examples *)

Lemma small_numpy_runs rho num_paths num_steps :
  (0 <= num_paths)%Z -> (1 <= num_steps <= 2 ^ 32)%Z ->
  (num_paths * (num_steps + 1) <= 2 ^ 32)%Z ->
  Rabs rho <= 10 ->
  simulation_runs small_numpy rho num_paths num_steps.
Proof.
  intros Hp Hn Hs Hrho. unfold simulation_runs.
  split; [exact Hp|]. split; [lia|]. split.
  - apply overflows_c_long. unfold c_long.
    apply andb_true_intro. split; [apply Z.leb_le|apply Z.ltb_lt]; lia.
  - split; [|split].
    + cbn [alloc_error small_numpy].
      destruct (Z.leb_spec (num_paths * num_steps) (2 ^ 32));
        [reflexivity|nia].
    + cbn [alloc_error small_numpy].
      destruct (Z.leb_spec (num_paths * (num_steps + 1)) (2 ^ 32));
        [reflexivity|nia].
    + apply (overflows_false _ 100); [|reflexivity].
      rewrite <- RPow_abs.
      assert (0 <= Rabs rho) by apply Rabs_pos. nra.
Qed.

(** * Properties of the specification *)

(** ** Validation *)

Lemma one_path_zero_maturity
    S0 v0 rho kappa theta sigma r strike option_type g :
  Rabs rho <= 10 ->
  heston_model_sim small_numpy S0 v0 rho kappa theta sigma 0 r strike
    option_type 1 1 g
  = (Returned (payoff1 option_type strike (Real S0)), advance 2 g).
Proof.
  intros Hrho.
  rewrite heston_model_sim_returns
    by (apply small_numpy_runs; [lia|lia|lia|exact Hrho]).
  rewrite mc_price_zero_maturity by now right.
  cbn [np_mean small_numpy]. change (Z.to_nat 1) with 1%nat.
  cbn [repeat]. rewrite mean_single.
  unfold after_sim, advance. cbn [stream pos]. do 2 f_equal. lia.
Qed.

Lemma no_path_price
    S0 v0 rho kappa theta sigma T r strike option_type g :
  Rabs rho <= 10 ->
  fst (heston_model_sim small_numpy S0 v0 rho kappa theta sigma T r strike
         option_type 0 1 g)
  = Returned NaN.
Proof.
  intros Hrho.
  rewrite heston_model_sim_returns
    by (apply small_numpy_runs; [lia|lia|lia|exact Hrho]).
  unfold mc_price. change (Z.to_nat 0) with 0%nat.
  cbn [seq map fst np_mean small_numpy]. now rewrite mean_nil.
Qed.

Lemma Rabs_le_10 x : -10 <= x <= 10 -> Rabs x <= 10.
Proof. intros H. apply Rabs_le. lra. Qed.

(** C1 (as stated, refuted): none of the conditions the specification lists
    is checked, and nothing is raised in their name.  For spot 100, strike
    90, a call of maturity 0, one path and one step, a [rho] of 1.5, a [v0]
    of -0.01, a [theta] of -0.04 and a [sigma] of -0.3 each leave the price
    operation to take its two draws and return the estimate 10; a strike of
    -90 returns 190 and a spot of 0 returns 0; with no path the result is
    [nan]; with no step Python's own ZeroDivisionError is raised; and the
    greeks operation returns a result for a spot of 0. *)
Lemma listed_inputs_are_not_rejected :
  (heston_model_sim small_numpy 100 0.04 1.5 2 0.04 0.3 0 0.05 90 "call" 1 1
     zero_rng = (Returned (Real 10), advance 2 zero_rng) /\
   heston_model_sim small_numpy 100 (-0.01) (-0.5) 2 0.04 0.3 0 0.05 90 "call"
     1 1 zero_rng = (Returned (Real 10), advance 2 zero_rng) /\
   heston_model_sim small_numpy 100 0.04 (-0.5) 2 (-0.04) 0.3 0 0.05 90 "call"
     1 1 zero_rng = (Returned (Real 10), advance 2 zero_rng) /\
   heston_model_sim small_numpy 100 0.04 (-0.5) 2 0.04 (-0.3) 0 0.05 90 "call"
     1 1 zero_rng = (Returned (Real 10), advance 2 zero_rng)) /\
  (heston_model_sim small_numpy 100 0.04 (-0.5) 2 0.04 0.3 0 0.05 (-90) "call"
     1 1 zero_rng = (Returned (Real 190), advance 2 zero_rng) /\
   heston_model_sim small_numpy 0 0.04 (-0.5) 2 0.04 0.3 0 0.05 90 "call"
     1 1 zero_rng = (Returned (Real 0), advance 2 zero_rng)) /\
  (fst (heston_model_sim small_numpy 100 0.04 (-0.5) 2 0.04 0.3 0 0.05 90
          "call" 0 1 zero_rng) = Returned NaN /\
   fst (heston_model_sim small_numpy 100 0.04 (-0.5) 2 0.04 0.3 0 0.05 90
          "call" 1 0 zero_rng) = Raised ZeroDivisionError) /\
  (exists d g',
     calculate_greeks small_numpy 0 0.04 (-0.5) 2 0.04 0.3 1 0.05 90 "call"
       zero_rng = (Returned d, g')).
Proof.
  assert (P10 : payoff1 "call" 90 (Real 100) = Real 10).
  { rewrite payoff1_call, Rmax_left by lra. f_equal. lra. }
  assert (P190 : payoff1 "call" (-90) (Real 100) = Real 190).
  { rewrite payoff1_call, Rmax_left by lra. f_equal. lra. }
  assert (P0 : payoff1 "call" 90 (Real 0) = Real 0).
  { rewrite payoff1_call, Rmax_right by lra. reflexivity. }
  repeat split.
  - rewrite one_path_zero_maturity by (apply Rabs_le_10; lra). now rewrite P10.
  - rewrite one_path_zero_maturity by (apply Rabs_le_10; lra). now rewrite P10.
  - rewrite one_path_zero_maturity by (apply Rabs_le_10; lra). now rewrite P10.
  - rewrite one_path_zero_maturity by (apply Rabs_le_10; lra). now rewrite P10.
  - rewrite one_path_zero_maturity by (apply Rabs_le_10; lra).
    now rewrite P190.
  - rewrite one_path_zero_maturity by (apply Rabs_le_10; lra). now rewrite P0.
  - apply no_path_price. apply Rabs_le_10. lra.
  - now rewrite heston_model_sim_zero_steps.
  - rewrite calculate_greeks_runs.
    + destruct (Rlt_dec one_day 1); eauto.
    + apply small_numpy_runs; unfold default_num_steps;
        [lia|lia|lia|apply Rabs_le_10; lra].
    + replace ((0 * 0.01) ^ 2) with (0 ^ 2) by ring. apply overflows_zero.
Qed.

(** C1 (amended): the program checks none of the listed conditions and
    raises nothing in their name.  With no step ([num_steps = 0]) the price
    operation raises Python's ZeroDivisionError, and with a negative
    [num_paths] or [num_steps] numpy's ValueError, in both cases before any
    draw.  Whenever the call runs (sizes numpy builds, a [rho ** 2] within
    the doubles) it takes its draws, simulates and returns a value, whatever
    [v0], [theta], [sigma], [strike] and [S0] are and whether or not [rho]
    lies in [-1, 1]; and so does the greeks operation, with its 20000 paths
    and 100 steps, when moreover [dS ** 2] is within the doubles, a spot of
    0 included. *)
Theorem listed_inputs_outcomes
    np S0 v0 rho kappa theta sigma T r strike option_type num_paths num_steps
    g :
  (num_steps = 0%Z ->
   heston_model_sim np S0 v0 rho kappa theta sigma T r strike option_type
     num_paths num_steps g = (Raised ZeroDivisionError, g)) /\
  (c_long num_paths = true -> c_long num_steps = true ->
   num_steps <> 0%Z -> (num_paths < 0 \/ num_steps < 0)%Z ->
   heston_model_sim np S0 v0 rho kappa theta sigma T r strike option_type
     num_paths num_steps g = (Raised ValueError, g)) /\
  (simulation_runs np rho num_paths num_steps ->
   exists x,
     heston_model_sim np S0 v0 rho kappa theta sigma T r strike option_type
       num_paths num_steps g
     = (Returned x, after_sim num_paths num_steps g)) /\
  (simulation_runs np rho 20000 default_num_steps ->
   overflows ((S0 * 0.01) ^ 2) = false ->
   exists d g',
     calculate_greeks np S0 v0 rho kappa theta sigma T r strike option_type g
     = (Returned d, g')).
Proof.
  repeat split.
  - intros ->. apply heston_model_sim_zero_steps.
  - apply heston_model_sim_negative_size.
  - intros H. eexists. now apply heston_model_sim_returns.
  - intros H HdS. rewrite calculate_greeks_runs by assumption.
    destruct (Rlt_dec one_day T); eauto.
Qed.

Lemma listed_inputs_outcomes_witness :
  (exists x,
     heston_model_sim small_numpy 0 (-0.01) 1.5 2 (-0.04) (-0.3) 1 0.05 (-100)
       "call" 0 1 zero_rng
     = (Returned x, after_sim 0 1 zero_rng)) /\
  heston_model_sim small_numpy 100 0.04 (-0.5) 2 0.04 0.3 1 0.05 100 "call"
    1000 0 zero_rng
  = (Raised ZeroDivisionError, zero_rng) /\
  heston_model_sim small_numpy 100 0.04 (-0.5) 2 0.04 0.3 1 0.05 100 "call"
    (-1) 100 zero_rng
  = (Raised ValueError, zero_rng).
Proof.
  split; [|split].
  - refine (proj1 (proj2 (proj2 (listed_inputs_outcomes small_numpy
              0 (-0.01) 1.5 2 (-0.04) (-0.3) 1 0.05 (-100) "call" 0 1
              zero_rng))) _).
    apply small_numpy_runs; [lia|lia|lia|apply Rabs_le_10; lra].
  - refine (proj1 (listed_inputs_outcomes small_numpy
              100 0.04 (-0.5) 2 0.04 0.3 1 0.05 100 "call" 1000 0
              zero_rng) _).
    reflexivity.
  - refine (proj1 (proj2 (listed_inputs_outcomes small_numpy
              100 0.04 (-0.5) 2 0.04 0.3 1 0.05 100 "call" (-1) 100
              zero_rng)) _ _ _ _); try reflexivity; lia.
Defined.

(** ** Seeding *)






(** ** Zero maturity *)

Lemma ordinary_1000 x : Rabs x <= 1000 -> ordinary x.
Proof.
  intros H. unfold ordinary.
  apply Rle_trans with (1 := H).
  replace 1000 with (10 ^ 3) by lra.
  apply Rle_pow; [lra|lia].
Qed.

(** C3 (as stated, refuted): with [T = 0], one step or more and [v0 >= 0]
    the price is not always the intrinsic value.  For spot 100 and strike 90
    the intrinsic value of the call is 10, but with no path ([num_paths = 0])
    the mean of the empty payoff array is [nan], and with [rho = 1.5], one
    path and two steps the square root of [1 - rho**2] is [nan], which
    reaches the variance in the first step and the price in the second. *)
Lemma zero_maturity_price_can_be_nan :
  (0 <= 0.04 /\
   fst (heston_model_sim small_numpy 100 0.04 (-0.5) 2 0.04 0.3 0 0.05 90
          "call" 0 1 zero_rng) = Returned NaN /\
   fst (heston_model_sim small_numpy 100 0.04 1.5 2 0.04 0.3 0 0.05 90
          "call" 1 2 zero_rng) = Returned NaN) /\
  Returned NaN <> Returned (Real (Rmax (100 - 90) 0)).
Proof.
  split; [split; [lra|split]|discriminate].
  - apply no_path_price. apply Rabs_le_10. lra.
  - rewrite heston_model_sim_returns
      by (apply small_numpy_runs; [lia|lia|lia|apply Rabs_le_10; lra]).
    unfold mc_price, terminal_price.
    change (Z.to_nat 1) with 1%nat. change (Z.to_nat 2) with 2%nat.
    cbn [seq map fst np_mean small_numpy]. rewrite mean_single.
    destruct (path_state_nan 0.05 2 0.04 0.3 (0 / 2)
                (z1_of zero_rng 2 0) (z2_of 1.5 zero_rng 1 2 0)
                (Real 100) (Real 0.04) 0) as [_ E].
    { apply z2_of_nan. right. lra. }
    rewrite E, payoff1_nan. reflexivity.
Qed.

(** C3 (amended): for every input with [T = 0], [num_paths >= 1],
    [num_steps >= 1], [rho] in [-1, 1] or a single step, and parameters of
    ordinary magnitude, for which the call runs, and any [v0], every path
    ends at [S0], whatever the generator draws, and nothing is discounted:
    the price is [np.mean] of [num_paths] copies of the intrinsic value,
    [max(S0 - K, 0)] for a call and [max(K - S0, 0)] for a put.  With one
    path this is the intrinsic value itself; with more it is the intrinsic
    value up to the rounding of [np.mean]. *)
Theorem zero_maturity_price
    np S0 v0 rho kappa theta sigma r strike num_paths num_steps g :
  simulation_runs np rho num_paths num_steps ->
  (1 <= num_paths)%Z ->
  -1 <= rho <= 1 \/ num_steps = 1%Z ->
  ordinary_parameters S0 v0 kappa theta sigma r strike ->
  let price option_type :=
    fst (heston_model_sim np S0 v0 rho kappa theta sigma 0 r strike
           option_type num_paths num_steps g) in
  let copies x := repeat (Real x) (Z.to_nat num_paths) in
  (price "call"%string = Returned (np_mean np (copies (Rmax (S0 - strike) 0)))
   /\
   price "put"%string = Returned (np_mean np (copies (Rmax (strike - S0) 0))))
  /\
  (num_paths = 1%Z -> (forall x, np_mean np [x] = x) ->
   price "call"%string = Returned (Real (Rmax (S0 - strike) 0)) /\
   price "put"%string = Returned (Real (Rmax (strike - S0) 0))).
Proof.
  intros Hrun Hp Hrho _ price copies.
  assert (E : forall option_type,
             price option_type
             = Returned (np_mean np (repeat (payoff1 option_type strike
                                               (Real S0))
                                       (Z.to_nat num_paths)))).
  { intros option_type. unfold price.
    rewrite heston_model_sim_returns by exact Hrun. cbn [fst].
    now rewrite mc_price_zero_maturity. }
  assert (Ec : payoff1 "call" strike (Real S0) = Real (Rmax (S0 - strike) 0))
    by apply payoff1_call.
  assert (Ep : payoff1 "put" strike (Real S0) = Real (Rmax (strike - S0) 0))
    by (apply payoff1_other; discriminate).
  split.
  - split; rewrite E; unfold copies; [now rewrite Ec|now rewrite Ep].
  - intros -> Hmean. change (Z.to_nat 1) with 1%nat in E.
    cbn [repeat] in E.
    split; rewrite E, Hmean; [now rewrite Ec|now rewrite Ep].
Qed.

Lemma zero_maturity_price_witness :
  (fst (heston_model_sim small_numpy 100 0.04 (-0.5) 2 0.04 0.3 0 0.05 90
          "call" 1000 100 zero_rng)
   = Returned (mean (repeat (Real (Rmax (100 - 90) 0)) (Z.to_nat 1000))) /\
   fst (heston_model_sim small_numpy 100 0.04 (-0.5) 2 0.04 0.3 0 0.05 90
          "put" 1000 100 zero_rng)
   = Returned (mean (repeat (Real (Rmax (90 - 100) 0)) (Z.to_nat 1000)))) /\
  fst (heston_model_sim small_numpy 100 0.04 1.5 2 0.04 0.3 0 0.05 90
         "call" 1 1 zero_rng)
  = Returned (Real (Rmax (100 - 90) 0)).
Proof.
  split.
  - refine (proj1 (zero_maturity_price small_numpy 100 0.04 (-0.5) 2 0.04 0.3
                     0.05 90 1000 100 zero_rng _ _ _ _)).
    + apply small_numpy_runs; [lia|lia|lia|apply Rabs_le_10; lra].
    + lia.
    + left. lra.
    + repeat (apply Forall_cons;
                [apply ordinary_1000; apply Rabs_le; lra|]).
      apply Forall_nil.
  - refine (proj1 (proj2 (zero_maturity_price small_numpy 100 0.04 1.5 2 0.04
                            0.3 0.05 90 1 1 zero_rng _ _ _ _) _ _)).
    + apply small_numpy_runs; [lia|lia|lia|apply Rabs_le_10; lra].
    + lia.
    + now right.
    + repeat (apply Forall_cons;
                [apply ordinary_1000; apply Rabs_le; lra|]).
      apply Forall_nil.
    + reflexivity.
    + intros x. apply mean_single.
Defined.
(** ** The discretisation step *)

(** C4: in the arrays the time loop leaves, entry [t + 1] of every path is
    obtained from entry [t] by the step of section 4.2: the variance read is
    floored, [v_plus = max(v(t), 0)], in the drift and diffusion coefficients
    only; the price becomes
    [S(t) * exp((r - 0.5 * v_plus) * dt + sqrt(v_plus) * sqrt(dt) * Z1)] and
    the variance stored is
    [v(t) + kappa * (theta - v_plus) * dt + sigma * sqrt(v_plus) * sqrt(dt) * Z2]
    as it comes, without a floor; it can be negative, as for [v0 = 1],
    [kappa = 0], [sigma = 2], [dt = 1] and the draw [Z2 = -1], where [-1] is
    stored. *)
Theorem euler_step_formulas :
  (forall S0 v0 rho kappa theta sigma T r num_paths num_steps g i t,
     (1 <= num_steps)%Z ->
     (i < Z.to_nat num_paths)%nat -> (t < Z.to_nat num_steps)%nat ->
     let dt := T / IZR num_steps in
     let Z1 := normal_draws num_paths num_steps g in
     let Z2 := correlate rho Z1
                 (normal_draws num_paths num_steps
                    (advance (num_paths * num_steps) g)) in
     let Sv :=
       simulate S0 v0 r kappa theta sigma dt Z1 Z2 num_paths num_steps in
     elem (fst Sv) i (t + 1)
     = S_next r dt (elem (fst Sv) i t) (elem (snd Sv) i t) (elem Z1 i t) /\
     elem (snd Sv) i (t + 1)
     = v_next kappa theta sigma dt (elem (snd Sv) i t) (elem Z2 i t)) /\
  (forall r kappa theta sigma dt s x z1 z2,
     0 <= dt ->
     S_next r dt (Real s) (Real x) (Real z1)
     = Real (s * exp ((r - 0.5 * Rmax x 0) * dt
                      + sqrt (Rmax x 0) * sqrt dt * z1)) /\
     v_next kappa theta sigma dt (Real x) (Real z2)
     = Real (x + kappa * (theta - Rmax x 0) * dt
             + sigma * sqrt (Rmax x 0) * sqrt dt * z2)) /\
  (let Z1 := normal_draws 1 1 dip_rng in
   let Z2 := correlate 0 Z1 (normal_draws 1 1 (advance (1 * 1) dip_rng)) in
   elem (snd (simulate 100 1 0.05 0 0.04 2 (1 / 1) Z1 Z2 1 1)) 0 1
   = Real (-1)).
Proof.
  split; [|split].
  - intros S0 v0 rho kappa theta sigma T r num_paths num_steps g i t
      Hn Hi Ht dt Z1 Z2 Sv.
    destruct (simulate_paths S0 v0 rho kappa theta sigma dt r
                num_paths num_steps g t) as (_ & _ & P0); [lia|lia|].
    destruct (simulate_paths S0 v0 rho kappa theta sigma dt r
                num_paths num_steps g (t + 1)) as (_ & _ & P1); [lia|lia|].
    specialize (P0 i Hi). specialize (P1 i Hi).
    fold Z1 Z2 Sv in P0, P1.
    replace (t + 1)%nat with (S t) in P1 |- * by lia.
    simpl in P1. rewrite <- P0 in P1.
    injection P1 as ES Ev. rewrite ES, Ev.
    unfold Z2, Z1.
    now rewrite elem_correlate, elem_normal_draws by lia.
  - intros. split; [now apply S_next_real|now apply v_next_real].
  - intros Z1 Z2.
    destruct (simulate_paths 100 1 0 0 0.04 2 (1 / 1) 0.05 1 1 dip_rng 1)
      as (_ & _ & P); [lia|simpl; lia|].
    specialize (P 0%nat). fold Z1 Z2 in P.
    change (Z.to_nat 1) with 1%nat in P.
    specialize (P (Nat.lt_0_succ 0)).
    apply (f_equal snd) in P. cbn [snd path_state] in P.
    rewrite P. unfold z2_of, z1_of.
    rewrite fsqrt_real by lra.
    unfold fadd, fmul, lift2.
    rewrite v_next_real by lra.
    rewrite draw_advance. unfold draw, dip_rng. cbn [stream pos].
    cbn [Z.of_nat Z.mul Z.add Z.eqb Pos.mul Pos.add Pos.eqb].
    replace (1 - 0 ^ 2) with 1 by ring.
    replace (1 / 1) with 1 by field.
    rewrite (Rmax_left 1), !sqrt_1 by lra.
    f_equal. ring.
Qed.

Lemma euler_step_formulas_witness :
  let Z1 := normal_draws 1 1 dip_rng in
  let Z2 := correlate 0 Z1 (normal_draws 1 1 (advance (1 * 1) dip_rng)) in
  let Sv := simulate 100 1 0.05 0 0.04 2 (1 / IZR 1) Z1 Z2 1 1 in
  elem (fst Sv) 0 (0 + 1)
  = S_next 0.05 (1 / IZR 1) (elem (fst Sv) 0 0) (elem (snd Sv) 0 0)
      (elem Z1 0 0) /\
  elem (snd Sv) 0 (0 + 1)
  = v_next 0 0.04 2 (1 / IZR 1) (elem (snd Sv) 0 0) (elem Z2 0 0).
Proof.
  refine (proj1 euler_step_formulas 100 1 0 0 0.04 2 1 0.05 1%Z 1%Z dip_rng
            0%nat 0%nat _ _ _).
  - lia.
  - simpl. lia.
  - simpl. lia.
Defined.

(** ** The Greeks *)

Lemma pow_2_60 : 2 ^ 60 = 1152921504606846976.
Proof. rewrite pow_IZR. f_equal. Qed.

Lemma one_day_bounds : 1 / 365 < one_day < 1 / 364.
Proof. unfold one_day. rewrite pow_2_60. lra. Qed.

Lemma greeks_sizes_run rho :
  Rabs rho <= 10 -> simulation_runs small_numpy rho 20000 default_num_steps.
Proof.
  intros H. apply small_numpy_runs; unfold default_num_steps;
    [lia|lia|lia|exact H].
Qed.

Lemma dS_square_small S0 :
  Rabs S0 <= 1000 -> overflows ((S0 * 0.01) ^ 2) = false.
Proof.
  intros H. apply (overflows_false _ 100); [|reflexivity].
  rewrite <- RPow_abs, Rabs_mult, (Rabs_pos_eq 0.01) by lra.
  assert (0 <= Rabs S0) by apply Rabs_pos. nra.
Qed.





(** C8 (as stated, refuted): for spot and strike 100 and maturity [T = 0]
    the generator is left where three simulations of 20000 paths and 100
    steps leave it, 12000000 draws on, not where four leave it: the
    simulation at the shortened maturity is not run. *)
Lemma greeks_run_three_simulations_at_expiry :
  let run :=
    calculate_greeks small_numpy 100 0.04 (-0.5) 2 0.04 0.3 0 0.05 100 "call"
      zero_rng in
  snd run = after_sims 3 20000 default_num_steps zero_rng /\
  pos (snd run) = 12000000%Z /\
  snd run <> after_sims 4 20000 default_num_steps zero_rng.
Proof.
  cbv zeta. rewrite calculate_greeks_runs;
    [|apply greeks_sizes_run, Rabs_le_10; lra
     |apply dS_square_small, Rabs_le; lra].
  pose proof one_day_bounds as Hd.
  destruct (Rlt_dec one_day 0) as [H|_]; [lra|].
  cbn [snd]. split; [reflexivity|]. split; [reflexivity|].
  intros E. apply (f_equal pos) in E.
  change (after_sim 20000 default_num_steps
            (after_sim 20000 default_num_steps
               (after_sim 20000 default_num_steps zero_rng)))
    with (after_sims 3 20000 default_num_steps zero_rng) in E.
  rewrite !pos_after_sims in E. unfold default_num_steps in E.
  cbn [pos zero_rng] in E. lia.
Qed.

(** C8 (amended): whenever the greeks operation runs (sizes numpy builds,
    [rho ** 2] and [dS ** 2] within the doubles), it is made of runs of the
    whole simulate-and-price chain and of nothing else: four when
    [T > dT], the double [1/365.0] (base spot, spot up, spot down, shortened
    maturity), and three when [T <= dT] (no shortened-maturity run).  Every
    run uses 20000 paths, twice the default 10000 of a single price, and
    100 steps, and takes its own draws, those that follow the draws of the
    run before; the result holds the price of the first run and the
    differences of the prices of the runs, and the generator is left where
    the last run leaves it. *)
Theorem greeks_simulation_runs
    np S0 v0 rho kappa theta sigma T r strike option_type g :
  simulation_runs np rho 20000 default_num_steps ->
  overflows ((S0 * 0.01) ^ 2) = false ->
  let dS := S0 * 0.01 in
  let dT := one_day in
  let N := (2 * default_num_paths)%Z in
  let sim S0 T k :=
    heston_model_sim np S0 v0 rho kappa theta sigma T r strike option_type
      N default_num_steps (after_sims k N default_num_steps g) in
  let result P P_up P_down theta_val :=
    [("price", P);
     ("delta", fdiv (fsub P_up P_down) (Real (2 * dS)));
     ("gamma",
      fdiv (fadd (fsub P_up (fmul (Real 2) P)) P_down) (Real (dS ^ 2)));
     ("theta", theta_val)]%string in
  exists P P_up P_down,
    sim S0 T 0%nat = (Returned P, after_sims 1 N default_num_steps g) /\
    sim (S0 + dS) T 1%nat
    = (Returned P_up, after_sims 2 N default_num_steps g) /\
    sim (S0 - dS) T 2%nat
    = (Returned P_down, after_sims 3 N default_num_steps g) /\
    (T > dT ->
     exists P_time_decay,
       sim S0 (T - dT) 3%nat
       = (Returned P_time_decay, after_sims 4 N default_num_steps g) /\
       calculate_greeks np S0 v0 rho kappa theta sigma T r strike
         option_type g
       = (Returned
            (result P P_up P_down (fdiv (fsub P_time_decay P) (Real dT))),
          after_sims 4 N default_num_steps g) /\
       pos (after_sims 4 N default_num_steps g)
       = (pos g + 4 * (2 * N * default_num_steps))%Z) /\
    (T <= dT ->
     calculate_greeks np S0 v0 rho kappa theta sigma T r strike option_type g
     = (Returned (result P P_up P_down (Real 0)),
        after_sims 3 N default_num_steps g) /\
     pos (after_sims 3 N default_num_steps g)
     = (pos g + 3 * (2 * N * default_num_steps))%Z).
Proof.
  intros Hrun HdS dS dT N sim result.
  change N with 20000%Z in *.
  do 3 eexists. unfold sim.
  split; [now apply heston_model_sim_returns|].
  split; [now apply heston_model_sim_returns|].
  split; [now apply heston_model_sim_returns|].
  rewrite calculate_greeks_runs by assumption. fold dS dT.
  rewrite !pos_after_sims.
  destruct (Rlt_dec dT T) as [H|H]; split; intros H'; try lra.
  - eexists.
    split; [now apply heston_model_sim_returns|].
    split; [reflexivity|lia].
  - split; [reflexivity|lia].
Qed.

Lemma greeks_simulation_runs_witness :
  snd (calculate_greeks small_numpy 100 0.04 (-0.5) 2 0.04 0.3 1 0.05 100
         "call" zero_rng)
  = after_sims 4 20000 default_num_steps zero_rng /\
  snd (calculate_greeks small_numpy 100 0.04 (-0.5) 2 0.04 0.3 0 0.05 100
         "call" zero_rng)
  = after_sims 3 20000 default_num_steps zero_rng.
Proof.
  assert (Hrun : simulation_runs small_numpy (-0.5) 20000 default_num_steps)
    by (apply greeks_sizes_run, Rabs_le_10; lra).
  assert (HdS : overflows ((100 * 0.01) ^ 2) = false)
    by (apply dS_square_small, Rabs_le; lra).
  pose proof one_day_bounds as Hd.
  split.
  - destruct (greeks_simulation_runs small_numpy 100 0.04 (-0.5) 2 0.04 0.3 1
                0.05 100 "call" zero_rng Hrun HdS)
      as (P & Pu & Pd & _ & _ & _ & H4 & _).
    destruct H4 as (Q & _ & E & _); [lra|]. now rewrite E.
  - destruct (greeks_simulation_runs small_numpy 100 0.04 (-0.5) 2 0.04 0.3 0
                0.05 100 "call" zero_rng Hrun HdS)
      as (P & Pu & Pd & _ & _ & _ & _ & H3).
    destruct H3 as (E & _); [lra|]. now rewrite E.
Defined.

(** ** The price estimate *)

(** C7: whenever the simulation runs (sizes numpy builds, a step count of
    one or more, a [rho ** 2] within the doubles), the price returned is
    [exp(-r * T)] times [np.mean], over the paths, of the payoff of the
    path's terminal price, the terminal price being the price component of
    the path's state after [num_steps] steps; the payoff is
    [max(S_T - K, 0)] for the option type "call" and [max(K - S_T, 0)] for
    every other option type.  There is no other way in which a price is
    returned. *)
Theorem price_is_discounted_mean_payoff
    np S0 v0 rho kappa theta sigma T r strike option_type num_paths num_steps
    g :
  simulation_runs np rho num_paths num_steps ->
  let S_T i :=
    fst (path_state r kappa theta sigma (T / IZR num_steps)
           (z1_of g num_steps i) (z2_of rho g num_paths num_steps i)
           (Real S0) (Real v0) (Z.to_nat num_steps)) in
  let pay sT :=
    if String.eqb option_type "call"
    then fmaximum (fsub sT (Real strike)) (Real 0)
    else fmaximum (fsub (Real strike) sT) (Real 0) in
  fst (heston_model_sim np S0 v0 rho kappa theta sigma T r strike option_type
         num_paths num_steps g)
  = Returned
      (fmul (Real (exp (- r * T)))
         (np_mean np
            (map (fun i => pay (S_T i)) (seq 0 (Z.to_nat num_paths))))).
Proof.
  intros Hrun S_T pay.
  now rewrite heston_model_sim_returns.
Qed.

Lemma price_is_discounted_mean_payoff_witness :
  fst (heston_model_sim small_numpy 100 0.04 (-0.5) 2 0.04 0.3 1 0.05 100
         "put" 2 1 zero_rng)
  = Returned
      (fmul (Real (exp (- (0.05) * 1)))
         (mean
            (map (fun i =>
                    fmaximum
                      (fsub (Real 100)
                         (fst (path_state 0.05 2 0.04 0.3 (1 / IZR 1)
                                 (z1_of zero_rng 1 i)
                                 (z2_of (-0.5) zero_rng 2 1 i)
                                 (Real 100) (Real 0.04) (Z.to_nat 1))))
                      (Real 0))
                 (seq 0 (Z.to_nat 2))))).
Proof.
  apply (price_is_discounted_mean_payoff small_numpy
           100 0.04 (-0.5) 2 0.04 0.3 1 0.05 100 "put" 2 1 zero_rng).
  apply small_numpy_runs; [lia|lia|lia|apply Rabs_le_10; lra].
Defined.

Lemma heston_model_sim_raises_whatever_option_type
    np S0 v0 rho kappa theta sigma T r strike option_type option_type'
    num_paths num_steps g e g' :
  heston_model_sim np S0 v0 rho kappa theta sigma T r strike option_type
    num_paths num_steps g = (Raised e, g') ->
  heston_model_sim np S0 v0 rho kappa theta sigma T r strike option_type'
    num_paths num_steps g = (Raised e, g').
Proof.
  unfold heston_model_sim, bind, py_div, py_square, normal, np_zeros, ret,
    raise.
  destruct (overflows (IZR num_steps)); [exact (fun H => H)|].
  destruct (num_steps =? 0)%Z; [exact (fun H => H)|].
  destruct (build_error np num_paths num_steps); [exact (fun H => H)|].
  destruct (overflows (rho ^ 2)); [exact (fun H => H)|].
  destruct (build_error np num_paths (num_steps + 1)); [exact (fun H => H)|].
  destruct (simulate _ _ _ _ _ _ _ _ _ _ _) as [Sa va]. discriminate.
Qed.

(** C10: every option type other than "call", "put" or not, is priced with
    the put payoff: whenever the simulation runs, the price returned for it
    is [exp(-r * T)] times [np.mean], over the paths, of
    [max(K - S_T, 0)] at the path's terminal price [S_T].  No option type is
    rejected: the outcome for it is the outcome for "put", and the price
    operation raises an exception for it only where it raises the same
    exception for "call". *)
Theorem other_option_types_are_puts
    np S0 v0 rho kappa theta sigma T r strike option_type num_paths num_steps
    g :
  option_type <> "call"%string ->
  let S_T i :=
    terminal_price S0 v0 rho kappa theta sigma T r num_paths num_steps g i in
  let price option_type :=
    heston_model_sim np S0 v0 rho kappa theta sigma T r strike option_type
      num_paths num_steps g in
  (simulation_runs np rho num_paths num_steps ->
   price option_type
   = (Returned
        (fmul (Real (exp (- r * T)))
           (np_mean np
              (map (fun i => fmaximum (fsub (Real strike) (S_T i)) (Real 0))
                 (seq 0 (Z.to_nat num_paths))))),
      after_sim num_paths num_steps g)) /\
  price option_type = price "put"%string /\
  (forall e g', price option_type = (Raised e, g') <->
                price "call"%string = (Raised e, g')).
Proof.
  intros H S_T price.
  assert (E : String.eqb option_type "call" = false)
    by now apply String.eqb_neq.
  split; [|split].
  - intros Hrun. unfold price.
    rewrite heston_model_sim_returns by exact Hrun.
    unfold mc_price, payoff1. now rewrite E.
  - unfold price, heston_model_sim, payoff. rewrite E. reflexivity.
  - intros e g'. unfold price.
    split; apply heston_model_sim_raises_whatever_option_type.
Qed.

Lemma other_option_types_are_puts_witness :
  heston_model_sim small_numpy 100 0.04 (-0.5) 2 0.04 0.3 1 0.05 100
    "straddle" 1 1 zero_rng
  = (Returned
       (fmul (Real (exp (- (0.05) * 1)))
          (mean
             (map (fun i =>
                     fmaximum
                       (fsub (Real 100)
                          (terminal_price 100 0.04 (-0.5) 2 0.04 0.3 1 0.05
                             1 1 zero_rng i))
                       (Real 0))
                (seq 0 (Z.to_nat 1))))),
     after_sim 1 1 zero_rng).
Proof.
  refine (proj1 (other_option_types_are_puts small_numpy
                   100 0.04 (-0.5) 2 0.04 0.3 1 0.05 100 "straddle" 1 1
                   zero_rng _) _).
  - discriminate.
  - apply small_numpy_runs; [lia|lia|lia|apply Rabs_le_10; lra].
Defined.

(** * Further properties of the pricer *)

(** ** Every outcome of a price call *)

(** X18: what a price call with sizes that fit a C long does, case by case
    and in the order of the program: no step raises ZeroDivisionError; a
    negative size raises ValueError; a first array of draws numpy cannot
    build raises numpy's exception, all three before any draw; a [rho ** 2]
    beyond the doubles raises OverflowError after the first
    [num_paths * num_steps] draws; arrays [S] and [v] numpy cannot build
    raise numpy's exception after both batches of draws; otherwise the call
    returns the discounted mean payoff of the simulated paths and leaves the
    generator [2 * num_paths * num_steps] draws on. *)
Theorem price_call_outcomes
    np S0 v0 rho kappa theta sigma T r strike option_type num_paths num_steps
    g :
  c_long num_paths = true -> c_long num_steps = true ->
  heston_model_sim np S0 v0 rho kappa theta sigma T r strike option_type
    num_paths num_steps g
  = if (num_steps =? 0)%Z then (Raised ZeroDivisionError, g)
    else if ((num_paths <? 0) || (num_steps <? 0))%Z
    then (Raised ValueError, g)
    else
      match alloc_error np num_paths num_steps with
      | Some e => (Raised e, g)
      | None =>
          if overflows (rho ^ 2)
          then (Raised OverflowError, advance (num_paths * num_steps) g)
          else
            match alloc_error np num_paths (num_steps + 1) with
            | Some e => (Raised e, after_sim num_paths num_steps g)
            | None =>
                (Returned
                   (mc_price np S0 v0 rho kappa theta sigma T r strike
                      option_type num_paths num_steps g),
                 after_sim num_paths num_steps g)
            end
      end.
Proof.
  intros Cp Cn.
  destruct (Z.eqb_spec num_steps 0) as [->|Hn0].
  { apply heston_model_sim_zero_steps. }
  destruct ((num_paths <? 0) || (num_steps <? 0))%Z eqn:Hneg.
  { apply heston_model_sim_negative_size; auto.
    apply orb_true_iff in Hneg. destruct Hneg as [H|H];
      apply Z.ltb_lt in H; [now left|now right]. }
  apply orb_false_iff in Hneg. destruct Hneg as [Hp Hn].
  apply Z.ltb_ge in Hp, Hn.
  destruct (alloc_error np num_paths num_steps) as [e|] eqn:A1.
  { unfold heston_model_sim, bind, py_div, normal, ret.
    rewrite (overflows_c_long num_steps Cn).
    destruct (Z.eqb_spec num_steps 0) as [E|_]; [contradiction|].
    rewrite build_error_nonneg by lia. now rewrite A1. }
  destruct (overflows (rho ^ 2)) eqn:Orho.
  { apply heston_model_sim_rho_overflows; auto; try lia.
    now apply overflows_c_long. }
  destruct (alloc_error np num_paths (num_steps + 1)) as [e|] eqn:A2.
  { unfold heston_model_sim, bind, py_div, py_square, normal, np_zeros, ret.
    rewrite (overflows_c_long num_steps Cn).
    destruct (Z.eqb_spec num_steps 0) as [E|_]; [contradiction|].
    rewrite !build_error_nonneg by lia. now rewrite A1, Orho, A2. }
  apply heston_model_sim_returns. unfold simulation_runs.
  repeat split; auto; try lia. now apply overflows_c_long.
Qed.

Lemma pow_10_overflows (k : nat) :
  (2 ^ 1024 - 2 ^ 970 <=? 10 ^ Z.of_nat k)%Z = true ->
  overflows (10 ^ k) = true.
Proof.
  intros H. apply Z.leb_le in H. apply overflows_true.
  unfold double_bound. rewrite Rabs_pos_eq by (apply pow_le; lra).
  rewrite pow_IZR. now apply IZR_le.
Qed.

Lemma price_call_outcomes_witness :
  heston_model_sim small_numpy 100 0.04 (10 ^ 200) 2 0.04 0.3 1 0.05 100
    "call" 3 5 zero_rng
  = (Raised OverflowError, advance 15 zero_rng).
Proof.
  rewrite price_call_outcomes by reflexivity.
  cbn [alloc_error small_numpy Z.eqb Z.ltb orb Z.compare Pos.compare
       Pos.compare_cont].
  change (3 * 5 <=? 2 ^ 32)%Z with true. cbv iota.
  rewrite <- pow_mult. now rewrite pow_10_overflows.
Defined.

(** ** A spot beyond the square root of the doubles *)

(** X19: when [dS ** 2] leaves the doubles (a spot of about 1.3e156 or
    more), [calculate_greeks] returns nothing: Python raises OverflowError
    at the gamma, after the three simulations of the prices have run and
    taken their 12000000 draws. *)
Theorem greeks_raise_on_large_spot
    np S0 v0 rho kappa theta sigma T r strike option_type g :
  simulation_runs np rho 20000 default_num_steps ->
  overflows ((S0 * 0.01) ^ 2) = true ->
  calculate_greeks np S0 v0 rho kappa theta sigma T r strike option_type g
  = (Raised OverflowError, after_sims 3 20000 default_num_steps g) /\
  pos (after_sims 3 20000 default_num_steps g) = (pos g + 12000000)%Z.
Proof.
  intros Hrun HdS. split.
  - now apply calculate_greeks_dS_overflows.
  - rewrite pos_after_sims. unfold default_num_steps. lia.
Qed.

Lemma greeks_raise_on_large_spot_witness :
  calculate_greeks small_numpy (10 ^ 200) 0.04 (-0.5) 2 0.04 0.3 1 0.05 100
    "call" zero_rng
  = (Raised OverflowError, after_sims 3 20000 default_num_steps zero_rng).
Proof.
  refine (proj1 (greeks_raise_on_large_spot small_numpy (10 ^ 200) 0.04
                   (-0.5) 2 0.04 0.3 1 0.05 100 "call" zero_rng _ _)).
  - apply greeks_sizes_run, Rabs_le_10. lra.
  - replace (10 ^ 200 * 0.01) with (10 ^ 198)
      by (change 200%nat with (198 + 2)%nat; rewrite pow_add; lra).
    rewrite <- pow_mult. now apply pow_10_overflows.
Defined.

(** ** A zero spot *)

Lemma fdiv_zero a y : y = 0 -> fdiv a (Real y) = NaN.
Proof.
  intros ->. unfold fdiv. destruct a as [x|]; [|reflexivity].
  destruct (Req_dec_T 0 0); [reflexivity|lra].
Qed.

(** X7: with a zero spot the spot bump [dS] is 0; whenever the simulations
    run (sizes numpy builds, [rho ** 2] within the doubles),
    [calculate_greeks] still returns, and both the delta and the gamma it
    returns are [nan], the result of dividing by [2 * dS = 0] and by
    [dS**2 = 0]. *)
Theorem greeks_at_zero_spot
    np v0 rho kappa theta sigma T r strike option_type g :
  simulation_runs np rho 20000 default_num_steps ->
  exists d g',
    calculate_greeks np 0 v0 rho kappa theta sigma T r strike option_type g
    = (Returned d, g') /\
    dict_get "delta" d = Some NaN /\
    dict_get "gamma" d = Some NaN.
Proof.
  intros Hrun.
  rewrite calculate_greeks_runs;
    [|exact Hrun|replace ((0 * 0.01) ^ 2) with (0 ^ 2) by ring;
                  apply overflows_zero].
  destruct (Rlt_dec one_day T); do 2 eexists;
    (split; [reflexivity|]);
    rewrite dict_get_delta, dict_get_gamma;
    rewrite !fdiv_zero by ring; split; reflexivity.
Qed.

Lemma greeks_at_zero_spot_witness :
  exists d g',
    calculate_greeks small_numpy 0 0.04 (-0.5) 2 0.04 0.3 1 0.05 100 "call"
      zero_rng
    = (Returned d, g') /\
    dict_get "delta" d = Some NaN /\
    dict_get "gamma" d = Some NaN.
Proof.
  apply (greeks_at_zero_spot small_numpy 0.04 (-0.5) 2 0.04 0.3 1 0.05 100
           "call" zero_rng).
  apply greeks_sizes_run, Rabs_le_10. lra.
Defined.

(** ** A single time step *)

(** X8: with [num_steps = 1], two price calls that both run (sizes numpy
    builds, [rho ** 2] within the doubles) and differ in [rho], [kappa],
    [theta] and [sigma] only have the same outcome: the only variance the
    single step reads is [v0], and the variance the step computes is never
    used. *)
Theorem single_step_ignores_variance_dynamics
    np S0 v0 rho kappa theta sigma rho' kappa' theta' sigma' T r strike
    option_type num_paths g :
  simulation_runs np rho num_paths 1 ->
  simulation_runs np rho' num_paths 1 ->
  heston_model_sim np S0 v0 rho kappa theta sigma T r strike option_type
    num_paths 1 g
  = heston_model_sim np S0 v0 rho' kappa' theta' sigma' T r strike
      option_type num_paths 1 g.
Proof.
  intros H H'. rewrite !heston_model_sim_returns by assumption.
  reflexivity.
Qed.

Lemma single_step_ignores_variance_dynamics_witness :
  heston_model_sim small_numpy 100 0.04 (-0.5) 2 0.04 0.3 1 0.05 100 "call"
    1000 1 zero_rng
  = heston_model_sim small_numpy 100 0.04 1.5 0 7 (-3) 1 0.05 100 "call"
      1000 1 zero_rng.
Proof.
  apply (single_step_ignores_variance_dynamics small_numpy
           100 0.04 (-0.5) 2 0.04 0.3 1.5 0 7 (-3) 1 0.05 100 "call" 1000
           zero_rng);
    (apply small_numpy_runs; [lia|lia|lia|apply Rabs_le_10; lra]).
Defined.

(** * The payoff chart *)

Lemma py_int_nonneg x :
  0 <= x -> IZR (py_int x) <= x < IZR (py_int x) + 1.
Proof.
  intros H. unfold py_int. destruct (Rle_dec 0 x); [|contradiction].
  destruct (base_Int_part x). lra.
Qed.

Lemma py_int_neg x :
  x < 0 -> IZR (py_int x) - 1 < x <= IZR (py_int x).
Proof.
  intros H. unfold py_int. destruct (Rle_dec 0 x); [lra|].
  destruct (base_Int_part (- x)). rewrite opp_IZR. lra.
Qed.

Lemma py_int_zero_iff x : py_int x = 0%Z <-> -1 < x < 1.
Proof.
  destruct (Rle_dec 0 x) as [H|H].
  - pose proof (py_int_nonneg x H) as B. split.
    + intros E. rewrite E in B. lra.
    + intros Hx.
      assert (py_int x < 1)%Z by (apply lt_IZR; lra).
      assert (-1 < py_int x)%Z by (apply lt_IZR; lra).
      lia.
  - apply Rnot_le_lt in H. pose proof (py_int_neg x H) as B. split.
    + intros E. rewrite E in B. lra.
    + intros Hx.
      assert (py_int x < 1)%Z by (apply lt_IZR; lra).
      assert (-1 < py_int x)%Z by (apply lt_IZR; lra).
      lia.
Qed.

(** X13: the chart cannot be drawn for a price below 100.  The step of the
    spot grid is [int(current_price * 0.01)], which is 0 exactly when the
    current price lies strictly between -100 and 100; [range] then raises
    ValueError, which [run_simulation] catches and reports as a failed
    simulation, after the pricing itself has succeeded.  For every other
    current price the chart data are computed. *)
Theorem payoff_chart_fails_iff current_price strike option_type :
  payoff_chart current_price strike option_type = Raised ValueError
  <-> -100 < current_price < 100.
Proof.
  unfold payoff_chart, range3.
  destruct (Z.eqb_spec (py_int (current_price * 0.01)) 0) as [E|E].
  - apply py_int_zero_iff in E. split; [intros _; lra|reflexivity].
  - split; [discriminate|].
    intros H. exfalso. apply E. apply py_int_zero_iff. lra.
Qed.

Lemma length_range3_pos start stop step :
  (0 < step)%Z -> (start < stop)%Z ->
  exists len,
    (0 < len)%Z /\
    range3 start stop step
    = Returned (map (fun k => (start + k * step)%Z) (range len)) /\
    (forall k, (0 <= k < len)%Z -> (start + k * step < stop)%Z).
Proof.
  intros Hs Hlt. exists ((stop - start - 1) / step + 1)%Z.
  assert (Q : (0 <= (stop - start - 1) / step)%Z)
    by (apply Z.div_pos; lia).
  split; [lia|]. split.
  - unfold range3.
    destruct (Z.eqb_spec step 0); [lia|].
    destruct (Z.ltb_spec 0 step); [|lia].
    destruct (Z.ltb_spec start stop); [reflexivity|lia].
  - intros k Hk.
    pose proof (Z.mul_div_le (stop - start - 1) step Hs). nia.
Qed.

(** The chart data for a price of 100 or more: the spots advance from the
    start of the grid by its step, which is at least 1, and stay below its
    end; there is at least one spot and one payoff per spot, the payoff of
    the option at that spot, which is never negative. *)
Lemma payoff_chart_entries current_price strike option_type :
  100 <= current_price ->
  let start := py_int (current_price * 0.8) in
  let stop := py_int (current_price * 1.2) in
  let step := py_int (current_price * 0.01) in
  exists spots payoffs,
    payoff_chart current_price strike option_type
    = Returned (spots, payoffs) /\
    (1 <= step)%Z /\
    (0 < List.length spots)%nat /\
    List.length payoffs = List.length spots /\
    forall k, (k < List.length spots)%nat ->
      nth k spots 0%Z = (start + Z.of_nat k * step)%Z /\
      (start <= nth k spots 0%Z < stop)%Z /\
      nth k payoffs 0 = payoff_real option_type strike (IZR (nth k spots 0%Z)) /\
      0 <= nth k payoffs 0.
Proof.
  intros Hc start stop step.
  assert (Hstep : (1 <= step)%Z).
  { pose proof (py_int_nonneg (current_price * 0.01)) as B.
    fold step in B. assert (0 < step)%Z by (apply lt_IZR; lra). lia. }
  assert (Hlt : (start < stop)%Z).
  { pose proof (py_int_nonneg (current_price * 0.8)) as B1.
    pose proof (py_int_nonneg (current_price * 1.2)) as B2.
    fold start in B1. fold stop in B2. apply lt_IZR. lra. }
  destruct (length_range3_pos start stop step) as (len & Hlen & E & Hb);
    [lia|exact Hlt|].
  unfold payoff_chart. fold start stop step. rewrite E.
  do 2 eexists. split; [reflexivity|].
  split; [exact Hstep|].
  rewrite !length_map, length_range.
  split; [lia|]. split; [reflexivity|].
  intros k Hk.
  assert (N : nth k (map (fun k0 => (start + k0 * step)%Z) (range len)) 0%Z
              = (start + Z.of_nat k * step)%Z).
  { rewrite (nth_map_lt _ _ _ 0%Z) by (rewrite length_range; lia).
    now rewrite nth_range. }
  split; [exact N|]. split.
  - rewrite N. specialize (Hb (Z.of_nat k)). nia.
  - rewrite (nth_map_lt _ _ _ 0%Z)
      by (rewrite length_map, length_range; lia).
    split; [reflexivity|].
    destruct (String.eqb option_type "call"); apply Rmax_r.
Qed.

Lemma payoff_real_call_mono strike a b :
  a <= b -> payoff_real "call" strike a <= payoff_real "call" strike b.
Proof.
  intros H. unfold payoff_real. simpl. unfold Rmax.
  destruct (Rle_dec (a - strike) 0), (Rle_dec (b - strike) 0); lra.
Qed.

(** X15: along the chart the spots strictly increase, the payoffs of a call
    never decrease and the payoffs of every other option type never
    increase (for a price of 100 or more, where the chart exists). *)
Theorem payoff_chart_monotone current_price strike option_type :
  100 <= current_price ->
  exists spots payoffs,
    payoff_chart current_price strike option_type
    = Returned (spots, payoffs) /\
    forall j k, (j < k)%nat -> (k < List.length spots)%nat ->
      (nth j spots 0%Z < nth k spots 0%Z)%Z /\
      (option_type = "call"%string -> nth j payoffs 0 <= nth k payoffs 0) /\
      (option_type <> "call"%string -> nth k payoffs 0 <= nth j payoffs 0).
Proof.
  intros Hc.
  destruct (payoff_chart_entries current_price strike option_type Hc)
    as (spots & payoffs & E & Hstep & _ & _ & G).
  exists spots, payoffs. split; [exact E|]. intros j k Hjk Hk.
  destruct (G j) as (Sj & _ & Pj & _); [lia|].
  destruct (G k) as (Sk & _ & Pk & _); [lia|].
  assert (Hlt : (nth j spots 0 < nth k spots 0)%Z) by (rewrite Sj, Sk; nia).
  split; [exact Hlt|]. apply IZR_lt in Hlt. rewrite Pj, Pk.
  split.
  - intros ->. apply payoff_real_call_mono. lra.
  - intros Hne. unfold payoff_real.
    destruct (String.eqb_spec option_type "call"); [contradiction|].
    unfold Rmax.
    destruct (Rle_dec (strike - IZR (nth k spots 0%Z)) 0),
             (Rle_dec (strike - IZR (nth j spots 0%Z)) 0); lra.
Qed.

Lemma payoff_chart_monotone_witness :
  exists spots payoffs,
    payoff_chart 100000 95000 "call" = Returned (spots, payoffs) /\
    forall j k, (j < k)%nat -> (k < List.length spots)%nat ->
      (nth j spots 0%Z < nth k spots 0%Z)%Z /\
      nth j payoffs 0 <= nth k payoffs 0.
Proof.
  assert (Hc : 100 <= 100000) by lra.
  destruct (payoff_chart_monotone 100000 95000 "call" Hc)
    as (spots & payoffs & E & H).
  exists spots, payoffs. split; [exact E|]. intros j k Hjk Hk.
  destruct (H j k Hjk Hk) as (H1 & H2 & _).
  split; [exact H1|]. now apply H2.
Defined.

Lemma payoff_chart_fails_iff_witness :
  payoff_chart 50 40 "call" = Raised ValueError.
Proof.
  apply (proj2 (payoff_chart_fails_iff 50 40 "call")). lra.
Defined.
(** * The risk-free rate *)

Lemma max_by_tvl_spec (l : list pool) :
  forall best,
    In (max_by_tvl best l) (best :: l) /\
    forall q, In q (best :: l) -> tvlUsd q <= tvlUsd (max_by_tvl best l).
Proof.
  induction l as [|p l IH]; intros best.
  - simpl. split; [now left|]. intros q [<-|[]]. lra.
  - cbn [max_by_tvl].
    destruct (Rlt_dec (tvlUsd best) (tvlUsd p)) as [H|H].
    + destruct (IH p) as [I M]. split.
      * right. exact I.
      * intros q [<-|Hq]; [|now apply M].
        assert (tvlUsd p <= tvlUsd (max_by_tvl p l)) by (apply M; now left).
        lra.
    + destruct (IH best) as [I M]. split.
      * destruct I as [<-|I]; [now left|right; now right].
      * intros q [<-|[<-|Hq]].
        -- apply M. now left.
        -- assert (tvlUsd best <= tvlUsd (max_by_tvl best l))
             by (apply M; now left).
           lra.
        -- apply M. now right.
Qed.

(** X16: which rate the feed yields.  When the request fails, or no pool of
    the response is the USDC pool of aave-v3 on Ethereum, the rate is the
    fallback 0.04.  Otherwise one such pool of the response is chosen whose
    TVL no other such pool exceeds, and the rate is its APY divided by 100,
    or the fallback 0.04 when that APY is null; the feed never looks at a
    second-best pool. *)
Theorem risk_free_rate_selection (pools : list pool) :
  fetch_risk_free_rate None = 0.04 /\
  ((forall p, In p pools -> is_usdc_pool p = false) ->
   fetch_risk_free_rate (Some pools) = 0.04) /\
  ((exists p, In p pools /\ is_usdc_pool p = true) ->
   exists best,
     In best pools /\ is_usdc_pool best = true /\
     (forall q, In q pools -> is_usdc_pool q = true ->
                tvlUsd q <= tvlUsd best) /\
     fetch_risk_free_rate (Some pools)
     = match apy best with
       | Some a => a / 100
       | None => 0.04
       end).
Proof.
  split; [reflexivity|]. split.
  - intros H. unfold fetch_risk_free_rate.
    destruct (filter is_usdc_pool pools) as [|p l] eqn:E; [reflexivity|].
    assert (In p (filter is_usdc_pool pools)) by (rewrite E; now left).
    apply filter_In in H0. destruct H0 as [I M].
    rewrite (H p I) in M. discriminate.
  - intros (p0 & I0 & M0). unfold fetch_risk_free_rate.
    destruct (filter is_usdc_pool pools) as [|p l] eqn:E.
    + assert (In p0 (filter is_usdc_pool pools))
        by (apply filter_In; now split).
      rewrite E in H. destruct H.
    + destruct (max_by_tvl_spec l p) as [I M].
      rewrite <- E in I. apply filter_In in I. destruct I as [I1 I2].
      exists (max_by_tvl p l). split; [exact I1|]. split; [exact I2|].
      split; [|reflexivity].
      intros q Hq Mq. apply M. rewrite <- E. apply filter_In. now split.
Qed.

Lemma risk_free_rate_selection_witness :
  let usdc :=
    {| symbol := "USDC"; chain := "Ethereum"; project := "aave-v3";
       tvlUsd := 1000000; apy := Some 5 |} in
  let other :=
    {| symbol := "DAI"; chain := "Ethereum"; project := "aave-v3";
       tvlUsd := 2000000; apy := Some 7 |} in
  fetch_risk_free_rate (Some [other]) = 0.04 /\
  exists best,
    In best [other; usdc] /\ is_usdc_pool best = true /\
    fetch_risk_free_rate (Some [other; usdc])
    = match apy best with
      | Some a => a / 100
      | None => 0.04
      end.
Proof.
  intros usdc other. split.
  - apply (proj1 (proj2 (risk_free_rate_selection [other]))).
    intros p [<-|[]]. reflexivity.
  - destruct (proj2 (proj2 (risk_free_rate_selection [other; usdc])))
      as (best & I & M & _ & E).
    + exists usdc. split; [right; now left|reflexivity].
    + exists best. split; [exact I|]. split; [exact M|exact E].
Defined.
